(** * pokemon-team-overlay: the browser client [static/index.js]

    A shallow embedding of the overlay's client script and the properties
    of its connection manager and renderer.

    The script is JavaScript running against three platform services: the
    values that [JSON.parse] produces, the DOM tree below [#teamGrid], and
    the event loop (socket events, timers, image load results).  Values are
    an inductive type, the DOM is a record tree, the page is a state record
    threaded through a state-and-exception monad, and the event loop is an
    executable [dispatch] function. *)

From Stdlib Require Import String Ascii List Bool Arith NArith ZArith Lia.
From Stdlib Require Import DecimalString.
Import ListNotations.
Local Open Scope list_scope.
Local Open Scope string_scope.

(** ** Strings *)

(** [String.prototype.endsWith] with the default end position: [suffix] is
    [s] itself or ends one of the strings obtained by dropping characters
    from the front of [s]. *)
Fixpoint endsWith (s suffix : string) : bool :=
  if String.eqb s suffix then true
  else match s with
       | EmptyString => false
       | String _ s' => endsWith s' suffix
       end.

(** The decimal rendering of an array index, as in [ToString(i)]. *)
Definition index_key (i : nat) : string :=
  NilZero.string_of_uint (Nat.to_uint i).

(** ** Completions *)

Inductive exn : Type :=
| TypeError
| SyntaxError.

(** Completion of an evaluation: a result or a thrown exception. *)
Inductive completion (A : Type) : Type :=
| Normal (a : A)
| Throw (e : exn).
Arguments Normal {A} a.
Arguments Throw {A} e.

Definition cbind {A B} (c : completion A) (k : A -> completion B)
  : completion B :=
  match c with
  | Normal a => k a
  | Throw e => Throw e
  end.

Declare Scope completion_scope.
Delimit Scope completion_scope with completion.
Notation "x <- c ;; k" := (cbind c (fun x => k))
  (at level 61, c at next level, right associativity) : completion_scope.

(** ** JavaScript values

    [number] stands for the IEEE doubles of the language.  The script only
    ever tests a number for truthiness or interpolates it into a string, so
    these two operations are the whole interface. *)
Class Numbers := {
  number : Type;
  Number_toBoolean : number -> bool;
  Number_toString : number -> string
}.

(** The property keys the script reads: [data.pokemon], [pokemon[i]],
    [.name] and [.nickname].  None of them is defined on a built-in
    prototype, so a read that misses the own properties gives [undefined]. *)
Inductive key : Type :=
| K_pokemon
| K_name
| K_nickname
| K_index (i : nat).

Definition key_string (k : key) : string :=
  match k with
  | K_pokemon => "pokemon"
  | K_name => "name"
  | K_nickname => "nickname"
  | K_index i => index_key i
  end.

Set Warnings "-register-all".

Section Values.
Context {numbers : Numbers}.

(** The values reachable from a [JSON.parse] result, plus [undefined],
    which property reads produce.  An object is its list of own
    properties; lookup takes the first binding of a key. *)
Inductive value : Type :=
| VUndefined
| VNull
| VBoolean (b : bool)
| VNumber (n : number)
| VString (s : string)
| VArray (elements : list value)
| VObject (properties : list (string * value)).

Fixpoint own_property (name : string) (properties : list (string * value))
  : option value :=
  match properties with
  | [] => None
  | (k, v) :: rest =>
      if String.eqb k name then Some v else own_property name rest
  end.

(** [v.k] and [v[i]].  Reading a property of [undefined] or [null] throws
    a TypeError; an index past the end of an array or a string reads as
    [undefined], as does any key a primitive does not carry. *)
Definition Get (v : value) (k : key) : completion value :=
  match v with
  | VUndefined | VNull => Throw TypeError
  | VBoolean _ | VNumber _ => Normal VUndefined
  | VString s =>
      match k with
      | K_index i =>
          match String.get i s with
          | Some c => Normal (VString (String c EmptyString))
          | None => Normal VUndefined
          end
      | _ => Normal VUndefined
      end
  | VArray elements =>
      match k with
      | K_index i => Normal (nth i elements VUndefined)
      | _ => Normal VUndefined
      end
  | VObject properties =>
      match own_property (key_string k) properties with
      | Some x => Normal x
      | None => Normal VUndefined
      end
  end.

Definition ToBoolean (v : value) : bool :=
  match v with
  | VUndefined | VNull => false
  | VBoolean b => b
  | VNumber n => Number_toBoolean n
  | VString s => negb (String.eqb s "")
  | VArray _ | VObject _ => true
  end.

(** [a || b] on already evaluated operands (the right operand of every
    [||] in the script is a literal or a variable). *)
Definition or_else (a b : value) : value :=
  if ToBoolean a then a else b.

(** [ToString].  An array joins its elements with commas, [undefined] and
    [null] elements printing as nothing.  A plain object prints through
    [Object.prototype.toString] unless it carries an own [toString]
    property: a parsed one is never callable, and the inherited [valueOf]
    returns the object itself, so the conversion throws a TypeError. *)
Fixpoint ToString (v : value) : completion string :=
  match v with
  | VUndefined => Normal "undefined"
  | VNull => Normal "null"
  | VBoolean true => Normal "true"
  | VBoolean false => Normal "false"
  | VNumber n => Normal (Number_toString n)
  | VString s => Normal s
  | VArray elements =>
      (fix join (l : list value) : completion string :=
         match l with
         | [] => Normal ""
         | x :: rest =>
             let element :=
               match x with
               | VUndefined | VNull => Normal ""
               | _ => ToString x
               end in
             match rest with
             | [] => element
             | _ :: _ =>
                 (s <- element ;;
                  r <- join rest ;;
                  Normal (s ++ "," ++ r))%completion
             end
         end) elements
  | VObject properties =>
      match own_property "toString" properties with
      | Some _ => Throw TypeError
      | None => Normal "[object Object]"
      end
  end.

End Values.

(** ** The DOM below [#teamGrid] *)

(** ASCII whitespace, which separates the tokens of a [class] attribute. *)
Definition is_ascii_whitespace (c : ascii) : bool :=
  match nat_of_ascii c with
  | 9 | 10 | 12 | 13 | 32 => true
  | _ => false
  end.

Fixpoint split_tokens (s current : string) : list string :=
  match s with
  | EmptyString => if String.eqb current "" then [] else [current]
  | String c s' =>
      if is_ascii_whitespace c
      then (if String.eqb current "" then split_tokens s' ""
            else current :: split_tokens s' "")
      else split_tokens s' (current ++ String c EmptyString)
  end.

Fixpoint contains_token (token : string) (tokens : list string) : bool :=
  match tokens with
  | [] => false
  | t :: rest => String.eqb t token || contains_token token rest
  end.

Fixpoint ordered_set (tokens seen : list string) : list string :=
  match tokens with
  | [] => []
  | t :: rest =>
      if contains_token t seen then ordered_set rest seen
      else t :: ordered_set rest (t :: seen)
  end.

(** [element.classList] as the ordered set of tokens of [className]. *)
Definition classList (className : string) : list string :=
  ordered_set (split_tokens className "") [].

Definition classList_contains (className token : string) : bool :=
  contains_token token (classList className).

(** [element.classList.add(token)]: the token is appended when it is
    missing, and [className] becomes the serialised token set. *)
Definition classList_add (token className : string) : string :=
  let tokens := classList className in
  String.concat " "
    (if contains_token token tokens then tokens else (tokens ++ [token])%list).

Section Elements.
Context {numbers : Numbers}.

(** An [<img>] element.  [img_onerror] is the closure installed as its
    error handler, represented by the [pokemonName] it captured (the sprite
    container it captured is the element's parent).  [img_requested] lists
    the resource URLs the element has asked for, oldest first (every
    assignment to [src] starts a fetch), and [img_loading] tells whether
    the result of the latest fetch is still outstanding. *)
Record HTMLImageElement : Type := {
  img_src : string;
  img_alt : string;
  img_display : string;
  img_onerror : value;
  img_requested : list string;
  img_loading : bool
}.

(** [<div class="sprite-container ...">] with its optional image child. *)
Record SpriteContainer : Type := {
  sprite_className : string;
  sprite_img : option HTMLImageElement
}.

(** [<div class="pokemon-name ...">]. *)
Record NameElement : Type := {
  name_className : string;
  name_textContent : string
}.

(** [<div class="pokemon-card ...">] with its two children in order. *)
Record Card : Type := {
  card_className : string;
  card_animationDelay : string;
  card_spriteContainer : SpriteContainer;
  card_nameEl : NameElement
}.

(** [`${i * 0.1}s`] for the six indices of the loop, in double arithmetic
    ([3 * 0.1] is not [0.3]).  The loop never reaches an index past 5. *)
Definition animationDelay (i : nat) : string :=
  match i with
  | 0 => "0s"
  | 1 => "0.1s"
  | 2 => "0.2s"
  | 3 => "0.30000000000000004s"
  | 4 => "0.4s"
  | 5 => "0.5s"
  | _ => ""
  end.

(** [isEmpty ? "empty" : ""]. *)
Definition empty_class (isEmpty : bool) : string :=
  if isEmpty then "empty" else "".

Definition sprite_url (name extension : string) : string :=
  "/sprites/" ++ name ++ extension.

(** [img.src = url]: the attribute changes and a fetch of [url] starts. *)
Definition set_src (url : string) (img : HTMLImageElement)
  : HTMLImageElement :=
  {| img_src := url;
     img_alt := img_alt img;
     img_display := img_display img;
     img_onerror := img_onerror img;
     img_requested := (img_requested img ++ [url])%list;
     img_loading := true |}.

(** Lines 37-39: the two fields of the entry at index [i], defaulted. *)
Definition pokemonName (pokemon : value) (i : nat) : completion value :=
  (entry <- Get pokemon (K_index i) ;;
   name <- Get entry K_name ;;
   Normal (or_else name (VString "")))%completion.

Definition pokemonNickname (pokemon : value) (i : nat) : completion value :=
  (entry <- Get pokemon (K_index i) ;;
   nickname <- Get entry K_nickname ;;
   Normal (or_else nickname (VString "")))%completion.

Definition isEmpty (pokemonName : value) : bool :=
  negb (ToBoolean pokemonName).

(** Lines 48-66: the image of a slot that is not empty.  The template
    literal and the assignment to [alt] each convert the name to a string. *)
Definition make_img (pokemonName : value) : completion HTMLImageElement :=
  (src <- ToString pokemonName ;;
   alt <- ToString pokemonName ;;
   Normal
     (set_src (sprite_url src ".png")
        {| img_src := "";
           img_alt := alt;
           img_display := "";
           img_onerror := pokemonName;
           img_requested := [];
           img_loading := false |}))%completion.

(** Lines 37-75: one iteration of the loop up to, and without, the final
    [teamGridEl.appendChild(card)].  Everything it creates is a fresh
    element that is not yet part of the document. *)
Definition make_card (pokemon : value) (i : nat) : completion Card :=
  (name <- pokemonName pokemon i ;;
   nickname <- pokemonNickname pokemon i ;;
   let empty := isEmpty name in
   img <- (if empty then Normal None
           else (img <- make_img name ;; Normal (Some img))) ;;
   text <- (if empty then Normal "Empty Slot"
            else ToString (or_else nickname name)) ;;
   Normal
     {| card_className := "pokemon-card " ++ empty_class empty ++ " fade-in";
        card_animationDelay := animationDelay i;
        card_spriteContainer :=
          {| sprite_className := "sprite-container " ++ empty_class empty;
             sprite_img := img |};
        card_nameEl :=
          {| name_className := "pokemon-name " ++ empty_class empty;
             name_textContent := text |} |})%completion.

End Elements.

(** ** The page *)

(** What the host page supplies: [JSON.parse] ([None] when it throws its
    SyntaxError) and the two components of [window.location] the script
    reads. *)
Class Host {numbers : Numbers} := {
  JSON_parse : string -> option value;
  location_protocol : string;
  location_host : string
}.

Inductive readyState : Type :=
| CONNECTING
| OPEN
| CLOSING
| CLOSED.

Record WebSocket : Type := {
  ws_url : string;
  ws_readyState : readyState
}.

(** The only function the script ever hands to [setTimeout]. *)
Inductive callback : Type :=
| call_connect.

(** A pending one-shot timer and the clock value (ms) it is due at. *)
Record timer : Type := {
  timer_callback : callback;
  timer_due : N
}.

Inductive console_entry : Type :=
| console_log (message : string)
| console_error_exn (message : string) (error : exn)
| console_error_event (message : string).

Section Page.
Context {numbers : Numbers} {host : Host}.

(** The state the script can see or change: the clock, the global [ws],
    the children of the [#teamGrid] element that [teamGridEl] holds (the
    host page provides it), the console, the pending timers, and the URL of
    every socket constructed so far (one per call of [connect]). *)
Record page : Type := {
  clock : N;
  ws : option WebSocket;
  teamGridEl : list Card;
  console : list console_entry;
  timers : list timer;
  connections : list string
}.

(** Statements run on the page and complete normally or throw; the page
    keeps whatever was done to it before a throw. *)
Definition M (A : Type) : Type := page -> page * completion A.

Definition ret {A} (a : A) : M A := fun p => (p, Normal a).

Definition bind {A B} (m : M A) (k : A -> M B) : M B :=
  fun p =>
    match m p with
    | (p', Normal a) => k a p'
    | (p', Throw e) => (p', Throw e)
    end.

Definition lift {A} (c : completion A) : M A := fun p => (p, c).

(** [try { body } catch (error) { handler }]. *)
Definition try_catch (body : M unit) (handler : exn -> M unit) : M unit :=
  fun p =>
    match body p with
    | (p', Normal a) => (p', Normal a)
    | (p', Throw e) => handler e p'
    end.

Definition modify (f : page -> page) : M unit := fun p => (f p, Normal tt).

Definition with_teamGridEl (f : list Card -> list Card) (p : page) : page :=
  {| clock := clock p; ws := ws p; teamGridEl := f (teamGridEl p);
     console := console p; timers := timers p;
     connections := connections p |}.

Definition with_console (entry : console_entry) (p : page) : page :=
  {| clock := clock p; ws := ws p; teamGridEl := teamGridEl p;
     console := (console p ++ [entry])%list; timers := timers p;
     connections := connections p |}.

Definition with_ws (socket : option WebSocket) (p : page) : page :=
  {| clock := clock p; ws := socket; teamGridEl := teamGridEl p;
     console := console p; timers := timers p;
     connections := connections p |}.

Definition with_timers (f : list timer -> list timer) (p : page) : page :=
  {| clock := clock p; ws := ws p; teamGridEl := teamGridEl p;
     console := console p; timers := f (timers p);
     connections := connections p |}.

Definition with_clock (f : N -> N) (p : page) : page :=
  {| clock := f (clock p); ws := ws p; teamGridEl := teamGridEl p;
     console := console p; timers := timers p;
     connections := connections p |}.

(** [ws = new WebSocket(url)]: a socket in the CONNECTING state replaces
    the global handle and one more connection attempt is on record. *)
Definition new_WebSocket (url : string) : M unit :=
  modify (fun p =>
    {| clock := clock p;
       ws := Some {| ws_url := url; ws_readyState := CONNECTING |};
       teamGridEl := teamGridEl p; console := console p; timers := timers p;
       connections := (connections p ++ [url])%list |}).

(** [setTimeout(f, delay)]: one timer, due [delay] ms from now. *)
Definition setTimeout (f : callback) (delay : N) : M unit :=
  modify (fun p =>
    with_timers
      (fun ts =>
         (ts ++ [{| timer_callback := f;
                    timer_due := (clock p + delay)%N |}])%list) p).

Definition appendChild (card : Card) : M unit :=
  modify (with_teamGridEl (fun children => (children ++ [card])%list)).

End Page.

Declare Scope page_scope.
Delimit Scope page_scope with page.
Notation "x <- c ;; k" := (bind c (fun x => k))
  (at level 61, c at next level, right associativity) : page_scope.
Notation "c ;; k" := (bind c (fun _ => k))
  (at level 61, right associativity) : page_scope.

Section Script.
Context {numbers : Numbers} {host : Host}.
Local Open Scope page_scope.

(** A counted [for (let i = start; ...; i++)] loop with [count]
    iterations left. *)
Fixpoint for_loop (i count : nat) (body : nat -> M unit) : M unit :=
  match count with
  | 0 => ret tt
  | S count' => body i ;; for_loop (S i) count' body
  end.

(** Lines 33-78. *)
Definition updateTeam (pokemon : value) : M unit :=
  modify (with_teamGridEl (fun _ => [])) ;;
  for_loop 0 6 (fun i =>
    card <- lift (make_card pokemon i) ;;
    appendChild card).

(** Lines 4-31.  The four handlers are installed on the new socket before
    any event can reach it; [dispatch] below calls them. *)
Definition connect : M unit :=
  let protocol :=
    if String.eqb location_protocol "https:" then "wss:" else "ws:" in
  new_WebSocket (protocol ++ "//" ++ location_host ++ "/ws").

Definition ws_onopen : M unit :=
  modify (with_console (console_log "Connected to server")).

Definition ws_onmessage (event_data : string) : M unit :=
  try_catch
    (data <- lift (match JSON_parse event_data with
                   | Some v => Normal v
                   | None => Throw SyntaxError
                   end) ;;
     pokemon <- lift (Get data K_pokemon) ;;
     updateTeam pokemon)
    (fun error =>
       modify (with_console
                 (console_error_exn "Error parsing message:" error))).

Definition ws_onerror : M unit :=
  modify (with_console (console_error_event "WebSocket error:")).

Definition ws_onclose : M unit :=
  modify (with_console (console_log "Disconnected from server")) ;;
  setTimeout call_connect 2000.

Definition run_callback (f : callback) : M unit :=
  match f with
  | call_connect => connect
  end.

(** Line 81: the script's only top-level statement, run on a blank page
    whose grid container is empty. *)
Definition blank_page : page :=
  {| clock := 0; ws := None; teamGridEl := []; console := [];
     timers := []; connections := [] |}.

Definition initial_page : page := fst (connect blank_page).

End Script.

(** ** Image loading *)

Section Images.
Context {numbers : Numbers} {host : Host}.

(** The [src] IDL attribute read back: the content attribute resolved
    against the page's origin.  Resolution may escape characters inside the
    name; it never touches the extension that ends the URL. *)
Definition src_property (img : HTMLImageElement) : string :=
  location_protocol ++ "//" ++ location_host ++ img_src img.

Definition set_display (display : string) (img : HTMLImageElement)
  : HTMLImageElement :=
  {| img_src := img_src img;
     img_alt := img_alt img;
     img_display := display;
     img_onerror := img_onerror img;
     img_requested := img_requested img;
     img_loading := img_loading img |}.

Definition set_loading (loading : bool) (img : HTMLImageElement)
  : HTMLImageElement :=
  {| img_src := img_src img;
     img_alt := img_alt img;
     img_display := img_display img;
     img_onerror := img_onerror img;
     img_requested := img_requested img;
     img_loading := loading |}.

Definition with_img (img : HTMLImageElement) (container : SpriteContainer)
  : SpriteContainer :=
  {| sprite_className := sprite_className container;
     sprite_img := Some img |}.

(** Lines 53-64: [img.onerror], called with [this] the image and
    [spriteContainer] its parent.  Returns the container as the handler
    leaves it. *)
Definition img_onerror_handler
    (this : HTMLImageElement) (spriteContainer : SpriteContainer)
  : SpriteContainer * completion unit :=
  if endsWith (src_property this) ".png" then
    match ToString (img_onerror this) with
    | Normal name =>
        (with_img (set_src (sprite_url name ".gif") this) spriteContainer,
         Normal tt)
    | Throw e => (with_img this spriteContainer, Throw e)
    end
  else if endsWith (src_property this) ".gif" then
    match ToString (img_onerror this) with
    | Normal name =>
        (with_img (set_src (sprite_url name ".jpg") this) spriteContainer,
         Normal tt)
    | Throw e => (with_img this spriteContainer, Throw e)
    end
  else
    ({| sprite_className :=
          classList_add "empty" (sprite_className spriteContainer);
        sprite_img := Some (set_display "none" this) |},
     Normal tt).

(** The outstanding fetch of a container's image finishes.  Success fires
    no handler of the script; failure fires [onerror].  [None] when the
    container has no image or no fetch is outstanding. *)
Definition image_result (loaded : bool) (container : SpriteContainer)
  : option (SpriteContainer * completion unit) :=
  match sprite_img container with
  | Some img =>
      if img_loading img then
        let img' := set_loading false img in
        if loaded then Some (with_img img' container, Normal tt)
        else Some (img_onerror_handler img' container)
      else None
  | None => None
  end.

(** Let every outstanding fetch of a container finish, [available] telling
    which URLs the server has, for at most [fuel] fetches. *)
Fixpoint settle (available : string -> bool) (fuel : nat)
    (container : SpriteContainer) : SpriteContainer :=
  match fuel with
  | 0 => container
  | S fuel' =>
      match sprite_img container with
      | Some img =>
          match image_result (available (img_src img)) container with
          | Some (container', _) => settle available fuel' container'
          | None => container
          end
      | None => container
      end
  end.

(** Nothing is outstanding: no further image event can reach the slot. *)
Definition settled (container : SpriteContainer) : bool :=
  match sprite_img container with
  | Some img => negb (img_loading img)
  | None => true
  end.

End Images.

(** ** The event loop *)

Inductive event : Type :=
| open_event
| message_event (data : string)
| error_event
| close_event (code : N) (wasClean : bool)
| timeout_event (k : nat)
| elapse (ms : N)
| image_event (slot : nat) (loaded : bool).

Fixpoint remove_nth {A} (k : nat) (l : list A) : list A :=
  match l, k with
  | [], _ => []
  | _ :: rest, 0 => rest
  | x :: rest, S k' => x :: remove_nth k' rest
  end.

Fixpoint replace_nth {A} (k : nat) (x : A) (l : list A) : list A :=
  match l, k with
  | [], _ => []
  | _ :: rest, 0 => x :: rest
  | y :: rest, S k' => y :: replace_nth k' x rest
  end.

Section EventLoop.
Context {numbers : Numbers} {host : Host}.

Definition set_readyState (state : readyState) (socket : WebSocket)
  : WebSocket :=
  {| ws_url := ws_url socket; ws_readyState := state |}.

Definition with_spriteContainer (container : SpriteContainer) (card : Card)
  : Card :=
  {| card_className := card_className card;
     card_animationDelay := card_animationDelay card;
     card_spriteContainer := container;
     card_nameEl := card_nameEl card |}.

(** One turn of the event loop: the platform's own state change followed
    by the script's handler, with the handler's completion ([Throw] is an
    uncaught error).  [None] when the platform cannot deliver the event in
    this state: socket events need a socket in a fitting state, a timer
    fires only once the clock has reached its due time, and an image event
    needs an outstanding fetch. *)
Definition dispatch (e : event) (p : page)
  : option (page * completion unit) :=
  match e with
  | open_event =>
      match ws p with
      | Some socket =>
          match ws_readyState socket with
          | CONNECTING =>
              Some (ws_onopen (with_ws (Some (set_readyState OPEN socket)) p))
          | _ => None
          end
      | None => None
      end
  | message_event data =>
      match ws p with
      | Some socket =>
          match ws_readyState socket with
          | OPEN => Some (ws_onmessage data p)
          | _ => None
          end
      | None => None
      end
  | error_event =>
      match ws p with
      | Some socket =>
          match ws_readyState socket with
          | CLOSED => None
          | _ => Some (ws_onerror p)
          end
      | None => None
      end
  | close_event _ _ =>
      match ws p with
      | Some socket =>
          match ws_readyState socket with
          | CLOSED => None
          | _ =>
              Some (ws_onclose
                      (with_ws (Some (set_readyState CLOSED socket)) p))
          end
      | None => None
      end
  | timeout_event k =>
      match nth_error (timers p) k with
      | Some t =>
          if (timer_due t <=? clock p)%N
          then Some (run_callback (timer_callback t)
                       (with_timers (remove_nth k) p))
          else None
      | None => None
      end
  | elapse ms => Some (with_clock (fun now => (now + ms)%N) p, Normal tt)
  | image_event slot loaded =>
      match nth_error (teamGridEl p) slot with
      | Some card =>
          match image_result loaded (card_spriteContainer card) with
          | Some (container, result) =>
              Some (with_teamGridEl
                      (replace_nth slot (with_spriteContainer container card))
                      p,
                    result)
          | None => None
          end
      | None => None
      end
  end.

(** A run of the event loop; an uncaught error ends the handler that threw
    it, not the loop. *)
Fixpoint run (events : list event) (p : page) : option page :=
  match events with
  | [] => Some p
  | e :: rest =>
      match dispatch e p with
      | Some (p', _) => run rest p'
      | None => None
      end
  end.

(** [n] rounds of: the connection closes, the reconnect delay passes, the
    oldest pending timer fires. *)
Fixpoint reconnect_rounds (n : nat) : list event :=
  match n with
  | 0 => []
  | S n' =>
      close_event 1006 false :: elapse 2000 :: timeout_event 0
        :: reconnect_rounds n'
  end.

End EventLoop.

(** ** The roster as the specification describes it *)

Section Roster.
Context {numbers : Numbers} {host : Host}.

(** A SlotEntry: an object whose [name] and [nickname], when it has them,
    are strings. *)
Definition optional_string (field : option value) : bool :=
  match field with
  | None => true
  | Some (VString _) => true
  | Some _ => false
  end.

Definition SlotEntry (entry : value) : bool :=
  match entry with
  | VObject properties =>
      optional_string (own_property "name" properties)
      && optional_string (own_property "nickname" properties)
  | _ => false
  end.

(** A field of a slot entry, the empty string when it is absent. *)
Definition slot_field (k : key) (entry : value) : string :=
  match Get entry k with
  | Normal (VString s) => s
  | _ => ""
  end.

(** The card of the renderer contract for position [i]: an empty slot
    carries the placeholder label and no image; any other slot carries an
    image that starts on the [.png] sprite, and is labelled with its
    nickname, or with its name when the nickname is empty. *)
Definition slot_card (i : nat) (entry : value) : Card :=
  let name := slot_field K_name entry in
  let nickname := slot_field K_nickname entry in
  let empty := String.eqb name "" in
  {| card_className := "pokemon-card " ++ empty_class empty ++ " fade-in";
     card_animationDelay := animationDelay i;
     card_spriteContainer :=
       {| sprite_className := "sprite-container " ++ empty_class empty;
          sprite_img :=
            if empty then None
            else Some {| img_src := sprite_url name ".png";
                         img_alt := name;
                         img_display := "";
                         img_onerror := VString name;
                         img_requested := [sprite_url name ".png"];
                         img_loading := true |} |};
     card_nameEl :=
       {| name_className := "pokemon-name " ++ empty_class empty;
          name_textContent :=
            if empty then "Empty Slot"
            else if String.eqb nickname "" then name else nickname |} |}.

(** The cards that [count] iterations of the loop starting at index [i]
    append, and how the loop ends. *)
Fixpoint rendered (pokemon : value) (i count : nat)
  : list Card * completion unit :=
  match count with
  | 0 => ([], Normal tt)
  | S count' =>
      match make_card pokemon i with
      | Normal card =>
          let (cards, result) := rendered pokemon (S i) count' in
          (card :: cards, result)
      | Throw e => ([], Throw e)
      end
  end.

(** The timer that [ws.onclose] leaves behind when it runs at clock
    value [now]. *)
Definition reconnect_timer (now : N) : timer :=
  {| timer_callback := call_connect; timer_due := (now + 2000)%N |}.

(** The URL [connect] opens. *)
Definition ws_endpoint : string :=
  (if String.eqb location_protocol "https:" then "wss:" else "ws:")
    ++ "//" ++ location_host ++ "/ws".

End Roster.

(** ** A concrete host

    Integer-valued numbers, a page served from [http://localhost:8080], and
    a [JSON.parse] that is exact on the six texts it knows and rejects
    every other text. *)
Module Demo.

Definition integers : Numbers :=
  {| number := Z;
     Number_toBoolean := fun z => negb (Z.eqb z 0);
     Number_toString := fun z => NilZero.string_of_int (Z.to_int z) |}.

Definition entry (name nickname : string) : @value integers :=
  VObject [("name", VString name); ("nickname", VString nickname)].

(** The text of a message whose roster has two entries, both empty
    objects; [quote] is the double quote character. *)
Definition quote : string := String (ascii_of_nat 34) EmptyString.

Definition two_slots_text : string :=
  "{" ++ quote ++ "pokemon" ++ quote ++ ":[{},{}]}".

Definition two_slots : @value integers :=
  VObject [("pokemon", VArray [VObject []; VObject []])].

Definition parse (text : string) : option (@value integers) :=
  if String.eqb text "null" then Some VNull
  else if String.eqb text "true" then Some (VBoolean true)
  else if String.eqb text "false" then Some (VBoolean false)
  else if String.eqb text "[]" then Some (VArray [])
  else if String.eqb text "{}" then Some (VObject [])
  else if String.eqb text two_slots_text then Some two_slots
  else None.

Definition host : @Host integers :=
  {| JSON_parse := parse;
     location_protocol := "http:";
     location_host := "localhost:8080" |}.

(** The roster of the specification's scenario. *)
Definition roster : @value integers :=
  VArray [entry "pikachu" "Sparky"; VObject []; VObject []; VObject [];
          VObject []; VObject []].

(** A roster that stops after two entries. *)
Definition short_roster : @value integers :=
  VArray [entry "pikachu" "Sparky"; VObject [("name", VString "eevee")]].

(** A roster of seven entries whose second has an empty nickname. *)
Definition unnamed_roster : @value integers :=
  VArray [entry "pikachu" "Sparky"; entry "eevee" ""; VObject []; VObject [];
          VObject []; VObject []; entry "mew" "Seventh"].

(** A full roster whose second entry has a name and no nickname. *)
Definition plain_roster : @value integers :=
  VArray [entry "pikachu" "Sparky"; VObject [("name", VString "eevee")];
          VObject []; VObject []; VObject []; VObject []].

(** A server that has no sprite at all. *)
Definition nowhere (url : string) : bool := false.

End Demo.

(** ** What stays true while the page runs *)

Section Invariants.
Context {numbers : Numbers} {host : Host}.

(** The three sprite URLs of a name, in the order the handler walks them. *)
Definition fallback_urls (name : string) : list string :=
  [sprite_url name ".png"; sprite_url name ".gif"; sprite_url name ".jpg"].

(** An image stands on the fallback chain of [name]: its [src] is one of
    the three URLs and its requests are the chain up to that URL. *)
Definition chain_at (name : string) (img : HTMLImageElement) : Prop :=
  (img_src img = sprite_url name ".png"
   /\ img_requested img = firstn 1 (fallback_urls name))
  \/ (img_src img = sprite_url name ".gif"
      /\ img_requested img = firstn 2 (fallback_urls name))
  \/ (img_src img = sprite_url name ".jpg"
      /\ img_requested img = firstn 3 (fallback_urls name)).

(** The image's handler can still print the name it captured, the image
    stands on that name's chain, and a hidden image is at the end of the
    chain with nothing outstanding. *)
Definition img_on_chain (img : HTMLImageElement) : Prop :=
  exists name,
    ToString (img_onerror img) = Normal name
    /\ chain_at name img
    /\ (img_display img = "none" ->
        img_src img = sprite_url name ".jpg" /\ img_loading img = false).

Definition card_on_chain (card : Card) : Prop :=
  match sprite_img (card_spriteContainer card) with
  | Some img => img_on_chain img
  | None => True
  end.

(** One socket at a time: the global handle holds a socket to the
    endpoint; a reconnect timer is pending exactly while that socket is
    closed, and then it is the only timer; every connection made so far
    went to the endpoint. *)
Definition one_connection (p : page) : Prop :=
  exists socket,
    ws p = Some socket
    /\ ws_url socket = ws_endpoint
    /\ ((ws_readyState socket = CLOSED /\ exists t, timers p = [t])
        \/ (ws_readyState socket <> CLOSED /\ timers p = []))
    /\ connections p <> []
    /\ Forall (eq ws_endpoint) (connections p).

(** The grid holds at most six cards and each image stands on its chain. *)
Definition sound_grid (p : page) : Prop :=
  length (teamGridEl p) <= 6 /\ Forall card_on_chain (teamGridEl p).

Definition is_close (e : event) : bool :=
  match e with
  | close_event _ _ => true
  | _ => false
  end.

Definition is_timeout (e : event) : bool :=
  match e with
  | timeout_event _ => true
  | _ => false
  end.

Definition is_message (e : event) : bool :=
  match e with
  | message_event _ => true
  | _ => false
  end.

Definition is_image (e : event) : bool :=
  match e with
  | image_event _ _ => true
  | _ => false
  end.

(** The close events of a run. *)
Definition count_close (events : list event) : nat :=
  length (filter is_close events).

(** What the fallback chain of [name] does on a server described by
    [available]: the URLs requested, and whether the image ends hidden. *)
Definition chain_requests (available : string -> bool) (name : string)
  : list string :=
  if available (sprite_url name ".png") then firstn 1 (fallback_urls name)
  else if available (sprite_url name ".gif") then firstn 2 (fallback_urls name)
  else fallback_urls name.

Definition chain_exhausted (available : string -> bool) (name : string)
  : bool :=
  negb (available (sprite_url name ".png")
        || available (sprite_url name ".gif")
        || available (sprite_url name ".jpg")).

End Invariants.

(** ** A second concrete host

    A page served over https, with a [JSON.parse] that also knows the
    texts of two full rosters. *)
Module Arena.

Definition six_slots_text : string :=
  "{" ++ Demo.quote ++ "pokemon" ++ Demo.quote ++ ":[{},{},{},{},{},{}]}".

Definition six_slots : @value Demo.integers :=
  VObject [("pokemon",
            VArray [VObject []; VObject []; VObject []; VObject [];
                    VObject []; VObject []])].

(** The text of the scenario roster without its nickname. *)
Definition pikachu_text : string :=
  "{" ++ Demo.quote ++ "pokemon" ++ Demo.quote ++ ":[{"
    ++ Demo.quote ++ "name" ++ Demo.quote ++ ":"
    ++ Demo.quote ++ "pikachu" ++ Demo.quote ++ "},{},{},{},{},{}]}".

Definition pikachu : @value Demo.integers :=
  VObject [("pokemon",
            VArray [VObject [("name", VString "pikachu")]; VObject [];
                    VObject []; VObject []; VObject []; VObject []])].

Definition parse (text : string) : option (@value Demo.integers) :=
  if String.eqb text six_slots_text then Some six_slots
  else if String.eqb text pikachu_text then Some pikachu
  else Demo.parse text.

Definition host : @Host Demo.integers :=
  {| JSON_parse := parse;
     location_protocol := "https:";
     location_host := "overlay.example" |}.

(** An object with the own properties ["0"] to ["5"], and the array with
    the same entries. *)
Definition array_like : @value Demo.integers :=
  VObject [("0", Demo.entry "pikachu" "Sparky"); ("1", VObject []);
           ("2", VObject []); ("3", VObject []); ("4", VObject []);
           ("5", VObject []); ("length", @VNumber Demo.integers 6%Z)].

(** A server that has the [.gif] sprites only. *)
Definition gif_only (url : string) : bool := endsWith url ".gif".

(** An entry whose name is a number and whose nickname is a list. *)
Definition numbered : @value Demo.integers :=
  VArray [VObject [("name", @VNumber Demo.integers 25%Z);
                   ("nickname", VArray [VString "Pika"; VString "chu"])]].

(** A run of the page: the socket opens, the pikachu roster arrives, its
    sprite fails three times, then the connection breaks and is made
    again two seconds later. *)
Definition session : list event :=
  [open_event; message_event pikachu_text; image_event 0 false;
   image_event 0 false; image_event 0 false; error_event;
   close_event 1006 false; elapse 2000; timeout_event 0].

(** The page at the end of the session. *)
Definition final : page :=
  match @run _ host session (@initial_page _ host) with
  | Some q => q
  | None => blank_page
  end.

(** The page when the pikachu roster has arrived, and the same page once
    its [.png] sprite has failed. *)
Definition arrived : page :=
  fst (@ws_onmessage _ host pikachu_text (@initial_page _ host)).

Definition png_failed : page :=
  match @dispatch _ host (image_event 0 false) arrived with
  | Some (p', _) => p'
  | None => blank_page
  end.

(** An entry whose name cannot be printed. *)
Definition nameless : @value Demo.integers :=
  VArray [VObject [("name", VObject [("toString", VNull)])]].

(** An entry whose nickname cannot be printed. *)
Definition unprintable : @value Demo.integers :=
  VArray [VObject [("name", VString "pikachu");
                   ("nickname", VObject [("toString", VNull)])]].

End Arena.

(** * Properties *)

(** ** Suffixes *)

Lemma endsWith_unfold (s suffix : string) :
  endsWith s suffix =
  if String.eqb s suffix then true
  else match s with
       | EmptyString => false
       | String _ s' => endsWith s' suffix
       end.
Proof. destruct s; reflexivity. Qed.

Lemma endsWith_append (prefix suffix : string) :
  endsWith (prefix ++ suffix) suffix = true.
Proof.
  induction prefix as [|c prefix IH]; rewrite endsWith_unfold; cbn [append].
  - now rewrite String.eqb_refl.
  - rewrite IH. now destruct (String.eqb _ _).
Qed.

Lemma endsWith_length (s suffix : string) :
  endsWith s suffix = true -> String.length suffix <= String.length s.
Proof.
  induction s as [|c s IH]; rewrite endsWith_unfold.
  - destruct (String.eqb_spec "" suffix) as [<-|]; [auto | discriminate].
  - destruct (String.eqb_spec (String c s) suffix) as [<-|]; [auto |].
    intros E. apply IH in E. cbn [String.length]. lia.
Qed.

Lemma append_length (a b : string) :
  String.length (a ++ b) = String.length a + String.length b.
Proof. induction a as [|c a IH]; cbn; [reflexivity | now rewrite IH]. Qed.

(** A string that ends in one extension does not end in another of the
    same length. *)
Lemma endsWith_other (prefix suffix other : string) :
  String.length other = String.length suffix ->
  String.eqb other suffix = false ->
  endsWith (prefix ++ other) suffix = false.
Proof.
  intros Hlen Hne.
  induction prefix as [|c prefix IH]; rewrite endsWith_unfold; cbn [append].
  - rewrite Hne. destruct other as [|d other]; [reflexivity |].
    destruct (endsWith other suffix) eqn:E; [| reflexivity].
    apply endsWith_length in E. cbn [String.length] in Hlen. lia.
  - destruct (String.eqb_spec (String c (prefix ++ other)) suffix) as [E|_];
      [| exact IH].
    apply (f_equal String.length) in E.
    cbn [String.length] in E. rewrite append_length in E. lia.
Qed.

Lemma append_assoc (a b c : string) : (a ++ b) ++ c = a ++ (b ++ c).
Proof. induction a as [|x a IH]; cbn; [reflexivity | now rewrite IH]. Qed.

(** ** The rendering loop *)

Section Renderer.
Context {numbers : Numbers} {host : Host}.

Lemma with_teamGridEl_same (p : page) :
  with_teamGridEl (fun _ => teamGridEl p) p = p.
Proof. now destruct p. Qed.

(** The loop appends exactly the cards [rendered] lists and ends the way
    [rendered] says. *)
Lemma for_loop_rendered (pokemon : value) (count i : nat) (p : page) :
  for_loop i count
    (fun i => bind (lift (make_card pokemon i)) appendChild) p
  = (with_teamGridEl
       (fun _ => (teamGridEl p ++ fst (rendered pokemon i count))%list) p,
     snd (rendered pokemon i count)).
Proof.
  revert i p. induction count as [|count IH]; intros i p.
  - cbn. now rewrite app_nil_r, with_teamGridEl_same.
  - cbn [for_loop rendered]. unfold bind at 1, bind at 1, lift.
    destruct (make_card pokemon i) as [card|e]; cbn [fst snd].
    + unfold appendChild, modify. rewrite IH.
      destruct (rendered pokemon (S i) count) as [cards result].
      cbn [fst snd]. unfold with_teamGridEl. cbn.
      now rewrite <- app_assoc.
    + now rewrite app_nil_r, with_teamGridEl_same.
Qed.

Lemma updateTeam_rendered (pokemon : value) (p : page) :
  updateTeam pokemon p
  = (with_teamGridEl (fun _ => fst (rendered pokemon 0 6)) p,
     snd (rendered pokemon 0 6)).
Proof.
  unfold updateTeam, bind at 1, modify. rewrite for_loop_rendered.
  reflexivity.
Qed.

Lemma rendered_all (pokemon : value) (f : nat -> Card) (count i : nat) :
  (forall j, i <= j < i + count -> make_card pokemon j = Normal (f j)) ->
  rendered pokemon i count = (map f (seq i count), Normal tt).
Proof.
  revert i. induction count as [|count IH]; intros i Hall; [reflexivity |].
  cbn [rendered seq map]. rewrite (Hall i) by lia.
  rewrite IH; [reflexivity |]. intros j Hj. apply Hall. lia.
Qed.

Lemma rendered_until (pokemon : value) (f : nat -> Card) (e : exn)
    (count i k : nat) :
  k < count ->
  (forall j, i <= j < i + k -> make_card pokemon j = Normal (f j)) ->
  make_card pokemon (i + k) = Throw e ->
  rendered pokemon i count = (map f (seq i k), Throw e).
Proof.
  revert i k. induction count as [|count IH]; intros i k Hk Hall Hthrow;
    [lia |].
  cbn [rendered]. destruct k as [|k].
  - rewrite Nat.add_0_r in Hthrow. now rewrite Hthrow.
  - rewrite (Hall i) by lia. cbn [seq map].
    rewrite (IH (S i) k); [reflexivity | lia | |].
    + intros j Hj. apply Hall. lia.
    + now rewrite <- Nat.add_succ_comm in Hthrow.
Qed.

(** When the loop completes, position [j] of what it appended is the card
    made for index [i + j]. *)
Lemma rendered_complete_nth (pokemon : value) (card : Card)
    (count i j : nat) :
  snd (rendered pokemon i count) = Normal tt ->
  j < count ->
  make_card pokemon (i + j) = Normal card ->
  nth_error (fst (rendered pokemon i count)) j = Some card.
Proof.
  revert i j. induction count as [|count IH]; intros i j Hend Hj Hcard;
    [lia |].
  cbn [rendered] in *.
  destruct (make_card pokemon i) as [c|e] eqn:E; [| discriminate].
  destruct (rendered pokemon (S i) count) as [cards result] eqn:R.
  cbn [fst snd] in *. destruct j as [|j].
  - rewrite Nat.add_0_r, E in Hcard. now injection Hcard as ->.
  - cbn [nth_error]. specialize (IH (S i) j). rewrite R in IH.
    apply IH; [assumption | lia |].
    now rewrite Nat.add_succ_comm.
Qed.

(** The loop either completes or stops at a first index that throws. *)
Lemma rendered_cases (pokemon : value) (count i : nat) :
  (snd (rendered pokemon i count) = Normal tt
   /\ length (fst (rendered pokemon i count)) = count)
  \/ exists k e,
       k < count
       /\ make_card pokemon (i + k) = Throw e
       /\ snd (rendered pokemon i count) = Throw e
       /\ length (fst (rendered pokemon i count)) = k.
Proof.
  revert i. induction count as [|count IH]; intros i; [now left |].
  cbn [rendered]. destruct (make_card pokemon i) as [c|e] eqn:E.
  - destruct (IH (S i)) as [[Hend Hlen]|(k & e & Hk & Hthrow & Hend & Hlen)];
      destruct (rendered pokemon (S i) count) as [cards result];
      cbn [fst snd length] in *.
    + left. now rewrite Hlen.
    + right. exists (S k), e. rewrite <- Nat.add_succ_comm.
      repeat split; [lia | assumption | assumption | now rewrite Hlen].
  - right. exists 0, e. rewrite Nat.add_0_r. repeat split; [lia | assumption].
Qed.

Lemma updateTeam_nth (pokemon : value) (p p' : page) (card : Card) (i : nat) :
  updateTeam pokemon p = (p', Normal tt) ->
  i < 6 ->
  make_card pokemon i = Normal card ->
  nth_error (teamGridEl p') i = Some card.
Proof.
  rewrite updateTeam_rendered.
  generalize (rendered_complete_nth pokemon card 6 0 i).
  destruct (rendered pokemon 0 6) as [cards result]. cbn [fst snd].
  intros Hnth E Hi Hcard. injection E as <- ->.
  cbn [teamGridEl with_teamGridEl]. now apply Hnth.
Qed.

(** When the body completes at every index before [j], position [j] of
    what the loop appended is the card made for index [i + j], however the
    loop ends afterwards. *)
Lemma rendered_reaches (pokemon : value) (card : Card) (count i j : nat) :
  j < count ->
  (forall m, m < j -> exists earlier,
      make_card pokemon (i + m) = Normal earlier) ->
  make_card pokemon (i + j) = Normal card ->
  nth_error (fst (rendered pokemon i count)) j = Some card.
Proof.
  revert i j. induction count as [|count IH]; intros i j Hj Hbefore Hcard;
    [lia |].
  cbn [rendered]. destruct j as [|j].
  - rewrite Nat.add_0_r in Hcard. rewrite Hcard.
    now destruct (rendered pokemon (S i) count).
  - destruct (Hbefore 0) as [first Hfirst]; [lia |].
    rewrite Nat.add_0_r in Hfirst. rewrite Hfirst.
    specialize (IH (S i) j).
    destruct (rendered pokemon (S i) count) as [cards ending].
    cbn [fst nth_error] in *. apply IH; [lia | |].
    + intros m Hm. destruct (Hbefore (S m)) as [earlier Hearlier]; [lia |].
      exists earlier. now rewrite Nat.add_succ_comm.
    + now rewrite Nat.add_succ_comm.
Qed.

(** Once the loop gets to index [i], the card made there is in the grid
    at position [i] when [updateTeam] returns, normally or not. *)
Lemma updateTeam_reaches (pokemon : value) (card : Card) (i : nat) (p : page) :
  i < 6 ->
  (forall j, j < i -> exists earlier, make_card pokemon j = Normal earlier) ->
  make_card pokemon i = Normal card ->
  nth_error (teamGridEl (fst (updateTeam pokemon p))) i = Some card.
Proof.
  intros Hi Hbefore Hcard. rewrite updateTeam_rendered.
  cbn [fst teamGridEl with_teamGridEl].
  apply rendered_reaches; [assumption | exact Hbefore | exact Hcard].
Qed.

End Renderer.

(** ** Single slots *)

Section Slots.
Context {numbers : Numbers} {host : Host}.

(** On a well-typed entry the loop body builds the card of the contract. *)
Lemma make_card_SlotEntry (pokemon entry : value) (i : nat) :
  Get pokemon (K_index i) = Normal entry ->
  SlotEntry entry = true ->
  make_card pokemon i = Normal (slot_card i entry).
Proof.
  intros Hget Htyped.
  unfold make_card, pokemonName, pokemonNickname, slot_card, slot_field.
  rewrite Hget. cbn [cbind].
  destruct entry as [| | | | |?|properties]; try discriminate.
  cbn [SlotEntry Get key_string] in *.
  apply andb_prop in Htyped as [Hname Hnick].
  destruct (own_property "name" properties) as [[| | | |name| |]|];
    try discriminate;
    destruct (own_property "nickname" properties) as [[| | | |nick| |]|];
    try discriminate;
    unfold or_else, isEmpty, make_img; cbn [cbind ToBoolean];
    try destruct (String.eqb name "") eqn:Ename;
    try destruct (String.eqb nick "") eqn:Enick;
    cbn; rewrite ?Ename, ?Enick; cbn; rewrite ?Ename, ?Enick; reflexivity.
Qed.

(** A missing entry is not defaulted: reading its [name] throws. *)
Lemma make_card_missing (pokemon : value) (i : nat) :
  Get pokemon (K_index i) = Normal VUndefined ->
  make_card pokemon i = Throw TypeError.
Proof.
  intros Hget. unfold make_card, pokemonName. now rewrite Hget.
Qed.

Lemma Get_TypeError (v : value) (k : key) (e : exn) :
  Get v k = Throw e -> e = TypeError.
Proof.
  destruct v as [| | | |s|elements|properties]; cbn [Get];
    try congruence.
  - destruct k; try discriminate. now destruct (String.get i s).
  - now destruct k.
  - now destruct (own_property _ _).
Qed.

(** Induction on values that reaches the elements of an array. *)
Lemma value_elements_ind (P : value -> Prop) :
  P VUndefined -> P VNull ->
  (forall b, P (VBoolean b)) ->
  (forall n, P (VNumber n)) ->
  (forall s, P (VString s)) ->
  (forall elements, Forall P elements -> P (VArray elements)) ->
  (forall properties, P (VObject properties)) ->
  forall v, P v.
Proof.
  intros Hundefined Hnull Hboolean Hnumber Hstring Harray Hobject.
  fix IH 1. intros [| |b|n|s|elements|properties];
    [assumption | assumption | apply Hboolean | apply Hnumber
    | apply Hstring | | apply Hobject].
  apply Harray. revert elements.
  fix IHelements 1. intros [|x rest]; constructor;
    [apply IH | apply IHelements].
Qed.

Lemma ToString_TypeError (v : value) (e : exn) :
  ToString v = Throw e -> e = TypeError.
Proof.
  revert e. induction v as [| |[|]| | |elements IH|properties]
    using value_elements_ind; intros e; cbn [ToString];
    try discriminate.
  - induction IH as [|x rest Hx _ IHrest]; [discriminate |].
    assert (Hx' : forall e',
               match x with
               | VUndefined | VNull => Normal ""
               | _ => ToString x
               end = Throw e' -> e' = TypeError).
    { intros e'. destruct x; try discriminate; apply Hx. }
    destruct rest as [|y rest]; [apply Hx' |].
    destruct (match x with
              | VUndefined | VNull => Normal ""
              | _ => ToString x
              end) as [s|e'] eqn:Ex; cbn [cbind].
    + intros E. apply IHrest.
      match type of E with
      | cbind ?c _ = _ => destruct c as [r|e''] eqn:Er
      end; cbn [cbind] in E; [discriminate | congruence].
    + intros E. injection E as <-. now apply Hx'.
  - destruct (own_property _ _); congruence.
Qed.

Lemma make_card_TypeError (pokemon : value) (i : nat) (e : exn) :
  make_card pokemon i = Throw e -> e = TypeError.
Proof.
  unfold make_card, pokemonName, pokemonNickname, make_img.
  repeat match goal with
         | |- context [cbind ?c _] =>
             let E := fresh "E" in
             destruct c eqn:E; cbn [cbind];
             [| intros [= <-];
                first [ now apply Get_TypeError in E
                      | now apply ToString_TypeError in E ] ]
         | |- context [if ?b then _ else _] => destruct b
         end;
    try discriminate.
  all: intros E'; first [ discriminate E' | now apply ToString_TypeError in E' ].
Qed.

End Slots.

(** ** Labels *)

Section Labels.
Context {numbers : Numbers} {host : Host}.

(** C7.  A slot entry whose [name] is absent or the empty string is
    rendered by [updateTeam] as an empty slot: the label is the fixed
    placeholder ["Empty Slot"], no image element is created, and the card
    and its sprite container carry the [empty] class.  The entry's other
    properties are arbitrary, so this holds whatever its [nickname] is.
    The card is in the grid at the entry's position when [updateTeam]
    returns, from any page, as soon as the loop gets to that index (the
    body completes at the earlier ones), whether [updateTeam] then
    completes or throws at a later index. *)
Theorem empty_name_renders_placeholder
    (pokemon : value) (properties : list (string * value)) (i : nat) :
  i < 6 ->
  Get pokemon (K_index i) = Normal (VObject properties) ->
  own_property "name" properties = None
  \/ own_property "name" properties = Some (VString "") ->
  exists card,
    make_card pokemon i = Normal card
    /\ name_textContent (card_nameEl card) = "Empty Slot"
    /\ sprite_img (card_spriteContainer card) = None
    /\ classList_contains (card_className card) "empty" = true
    /\ classList_contains
         (sprite_className (card_spriteContainer card)) "empty" = true
    /\ (forall p p',
           updateTeam pokemon p = (p', Normal tt) ->
           nth_error (teamGridEl p') i = Some card)
    /\ ((forall j, j < i ->
            exists earlier, make_card pokemon j = Normal earlier) ->
        forall p,
          nth_error (teamGridEl (fst (updateTeam pokemon p))) i = Some card).
Proof.
  intros Hi Hget Hname.
  assert (Hcard : exists card,
             make_card pokemon i = Normal card
             /\ name_textContent (card_nameEl card) = "Empty Slot"
             /\ sprite_img (card_spriteContainer card) = None
             /\ classList_contains (card_className card) "empty" = true
             /\ classList_contains
                  (sprite_className (card_spriteContainer card)) "empty"
                = true).
  { unfold make_card, pokemonName, pokemonNickname.
    rewrite Hget. cbn [cbind Get key_string].
    destruct (own_property "nickname" properties) as [nickname|];
      destruct Hname as [-> | ->]; cbn [cbind or_else ToBoolean];
      eexists; repeat split. }
  destruct Hcard as (card & Hmake & Hlabel & Himg & Hclass & Hsprite).
  exists card.
  split; [exact Hmake |]. split; [exact Hlabel |]. split; [exact Himg |].
  split; [exact Hclass |]. split; [exact Hsprite |]. split.
  - intros p p' Hrun. now apply (updateTeam_nth pokemon p).
  - intros Hbefore p. now apply updateTeam_reaches.
Qed.

(** The card of an entry whose [name] is a non-empty string, given the
    string its label converts to. *)
Lemma make_card_named
    (pokemon : value) (properties : list (string * value)) (i : nat)
    (name label : string) :
  Get pokemon (K_index i) = Normal (VObject properties) ->
  own_property "name" properties = Some (VString name) ->
  String.eqb name "" = false ->
  ToString
    (or_else
       (or_else
          match own_property "nickname" properties with
          | Some nickname => nickname
          | None => VUndefined
          end (VString ""))
       (VString name)) = Normal label ->
  make_card pokemon i
  = Normal
      {| card_className := "pokemon-card  fade-in";
         card_animationDelay := animationDelay i;
         card_spriteContainer :=
           {| sprite_className := "sprite-container ";
              sprite_img :=
                Some {| img_src := sprite_url name ".png";
                        img_alt := name;
                        img_display := "";
                        img_onerror := VString name;
                        img_requested := [sprite_url name ".png"];
                        img_loading := true |} |};
         card_nameEl :=
           {| name_className := "pokemon-name ";
              name_textContent := label |} |}.
Proof.
  intros Hget Hname Hne Hlabel.
  unfold make_card, pokemonName, pokemonNickname, make_img.
  rewrite Hget. cbn [cbind Get key_string]. rewrite Hname.
  assert (Hor : or_else (VString name) (VString "") = VString name).
  { unfold or_else. cbn [ToBoolean]. now rewrite Hne. }
  destruct (own_property "nickname" properties) as [nickname|];
    cbn [cbind]; rewrite Hor; unfold isEmpty; cbn [ToBoolean];
    rewrite Hne; cbn [negb ToString cbind]; rewrite Hlabel; reflexivity.
Qed.

(** C8.  For a slot entry with a non-empty [name], [updateTeam] labels
    the slot with the nickname when a nickname is present (a non-empty
    string), and with the name when the entry has no nickname.  The card
    with that label is in the grid at the entry's position when
    [updateTeam] returns, from any page, as soon as the loop gets to that
    index (the body completes at the earlier ones). *)
Theorem label_is_nickname_else_name
    (pokemon : value) (properties : list (string * value)) (i : nat)
    (name : string) :
  i < 6 ->
  Get pokemon (K_index i) = Normal (VObject properties) ->
  own_property "name" properties = Some (VString name) ->
  String.eqb name "" = false ->
  (forall nickname,
      own_property "nickname" properties = Some (VString nickname) ->
      String.eqb nickname "" = false ->
      exists card,
        make_card pokemon i = Normal card
        /\ name_textContent (card_nameEl card) = nickname
        /\ (forall p p',
               updateTeam pokemon p = (p', Normal tt) ->
               nth_error (teamGridEl p') i = Some card)
        /\ ((forall j, j < i ->
                exists earlier, make_card pokemon j = Normal earlier) ->
            forall p,
              nth_error (teamGridEl (fst (updateTeam pokemon p))) i
              = Some card))
  /\ (own_property "nickname" properties = None ->
      exists card,
        make_card pokemon i = Normal card
        /\ name_textContent (card_nameEl card) = name
        /\ (forall p p',
               updateTeam pokemon p = (p', Normal tt) ->
               nth_error (teamGridEl p') i = Some card)
        /\ ((forall j, j < i ->
                exists earlier, make_card pokemon j = Normal earlier) ->
            forall p,
              nth_error (teamGridEl (fst (updateTeam pokemon p))) i
              = Some card)).
Proof.
  intros Hi Hget Hname Hne. split.
  - intros nickname Hnick Hnickne.
    pose proof (make_card_named pokemon properties i name nickname
                  Hget Hname Hne) as Hmake.
    rewrite Hnick in Hmake. unfold or_else in Hmake.
    cbn [ToBoolean] in Hmake. rewrite Hnickne in Hmake.
    cbn [negb ToBoolean] in Hmake. rewrite Hnickne in Hmake.
    specialize (Hmake eq_refl).
    eexists. split; [exact Hmake | split; [reflexivity | split]].
    + intros p p' Hrun. now apply (updateTeam_nth pokemon p).
    + intros Hbefore p. now apply updateTeam_reaches.
  - intros Hnick.
    pose proof (make_card_named pokemon properties i name name
                  Hget Hname Hne) as Hmake.
    rewrite Hnick in Hmake. unfold or_else in Hmake.
    cbn [ToBoolean String.eqb negb] in Hmake.
    specialize (Hmake eq_refl).
    eexists. split; [exact Hmake | split; [reflexivity | split]].
    + intros p p' Hrun. now apply (updateTeam_nth pokemon p).
    + intros Hbefore p. now apply updateTeam_reaches.
Qed.

(** C10.  For a slot entry with a non-empty [name] whose [nickname] is
    present but is the empty string, [updateTeam] treats the nickname as
    absent and labels the slot with the name.  The card with that label is
    in the grid at the entry's position when [updateTeam] returns, from
    any page, as soon as the loop gets to that index (the body completes
    at the earlier ones). *)
Theorem empty_nickname_renders_name
    (pokemon : value) (properties : list (string * value)) (i : nat)
    (name : string) :
  i < 6 ->
  Get pokemon (K_index i) = Normal (VObject properties) ->
  own_property "name" properties = Some (VString name) ->
  String.eqb name "" = false ->
  own_property "nickname" properties = Some (VString "") ->
  exists card,
    make_card pokemon i = Normal card
    /\ name_textContent (card_nameEl card) = name
    /\ (forall p p',
           updateTeam pokemon p = (p', Normal tt) ->
           nth_error (teamGridEl p') i = Some card)
    /\ ((forall j, j < i ->
            exists earlier, make_card pokemon j = Normal earlier) ->
        forall p,
          nth_error (teamGridEl (fst (updateTeam pokemon p))) i = Some card).
Proof.
  intros Hi Hget Hname Hne Hnick.
  pose proof (make_card_named pokemon properties i name name
                Hget Hname Hne) as Hmake.
  rewrite Hnick in Hmake. unfold or_else in Hmake.
  cbn [ToBoolean String.eqb negb] in Hmake.
  specialize (Hmake eq_refl).
  eexists. split; [exact Hmake | split; [reflexivity | split]].
  - intros p p' Hrun. now apply (updateTeam_nth pokemon p).
  - intros Hbefore p. now apply updateTeam_reaches.
Qed.

End Labels.

(** ** Whole rosters *)

Section Rosters.
Context {numbers : Numbers} {host : Host}.

Lemma forallb_firstn_nth {A} (f : A -> bool) (d : A) (n : nat) (l : list A)
    (j : nat) :
  forallb f (firstn n l) = true -> j < n -> j < length l ->
  f (nth j l d) = true.
Proof.
  revert n j. induction l as [|x l IH]; intros n j Hall Hn Hl;
    cbn [length] in Hl; [lia |].
  destruct n as [|n]; [lia |]. cbn [firstn forallb] in Hall.
  apply andb_prop in Hall as [Hx Hall].
  destruct j as [|j]; [exact Hx |]. cbn [nth]. apply (IH n); [assumption | lia | lia].
Qed.

Lemma nth_firstn_lt {A} (d : A) (n : nat) (l : list A) (j : nat) :
  j < n -> nth j (firstn n l) d = nth j l d.
Proof.
  revert n j. induction l as [|x l IH]; intros n j Hj.
  - now rewrite firstn_nil.
  - destruct n as [|n]; [lia |]. destruct j as [|j]; [reflexivity |].
    cbn [firstn nth]. apply IH. lia.
Qed.

Lemma rendered_nth (pokemon : value) (card : Card) (count i j : nat) :
  nth_error (fst (rendered pokemon i count)) j = Some card ->
  make_card pokemon (i + j) = Normal card.
Proof.
  revert i j. induction count as [|count IH]; intros i j; cbn [rendered].
  - now destruct j.
  - destruct (make_card pokemon i) as [c|e] eqn:E.
    + specialize (IH (S i)).
      destruct (rendered pokemon (S i) count) as [cards result].
      cbn [fst] in *. destruct j as [|j]; cbn [nth_error].
      * intros [= <-]. now rewrite Nat.add_0_r.
      * intros Hj. rewrite <- Nat.add_succ_comm. now apply IH.
    + now destruct j.
Qed.

(** If the body throws at some index below 6, [updateTeam] throws, and it
    has appended no card at or after that index. *)
Lemma updateTeam_throws (pokemon : value) (i : nat) (e : exn) (p : page) :
  i < 6 ->
  make_card pokemon i = Throw e ->
  exists p',
    updateTeam pokemon p = (p', Throw TypeError)
    /\ length (teamGridEl p') <= i.
Proof.
  intros Hi Hthrow. rewrite updateTeam_rendered.
  eexists. split; [| cbn [teamGridEl with_teamGridEl]].
  - f_equal.
    destruct (rendered_cases pokemon 6 0)
      as [[Hend Hlen]|(k & e' & Hk & Hk' & Hend & Hlen)].
    + destruct (nth_error (fst (rendered pokemon 0 6)) i) as [card|] eqn:E.
      * apply rendered_nth in E. cbn in E. congruence.
      * apply nth_error_None in E. lia.
    + rewrite Hend. f_equal. now apply (make_card_TypeError pokemon (0 + k)).
  - destruct (nth_error (fst (rendered pokemon 0 6)) i) as [card|] eqn:E.
    + apply rendered_nth in E. cbn in E. congruence.
    + now apply nth_error_None in E.
Qed.

(** C2.  For a payload whose [pokemon] sequence has at least 6 entries
    (slot entries, as the data model has them), [updateTeam] completes and
    leaves exactly 6 cards in the grid, whatever the grid held before:
    card [i] is the card of entry [i], for [i] from 0 to 5 in input order,
    and the entries past index 5 have no influence on the result. *)
Theorem updateTeam_renders_six_cards (entries : list value) (p : page) :
  6 <= length entries ->
  forallb SlotEntry (firstn 6 entries) = true ->
  exists p',
    updateTeam (VArray entries) p = (p', Normal tt)
    /\ teamGridEl p'
       = map (fun i => slot_card i (nth i entries VUndefined)) (seq 0 6)
    /\ length (teamGridEl p') = 6
    /\ updateTeam (VArray (firstn 6 entries)) p = (p', Normal tt).
Proof.
  intros Hlen Htyped.
  assert (Hcards : forall l,
             (forall j, j < 6 -> nth j l VUndefined = nth j entries VUndefined) ->
             rendered (VArray l) 0 6
             = (map (fun i => slot_card i (nth i entries VUndefined))
                  (seq 0 6), Normal tt)).
  { intros l Hl. apply rendered_all. intros j Hj.
    rewrite <- (Hl j) by lia.
    apply make_card_SlotEntry; [reflexivity |].
    rewrite Hl by lia.
    apply (forallb_firstn_nth SlotEntry VUndefined 6); [assumption | lia | lia]. }
  exists (with_teamGridEl
            (fun _ => map (fun i => slot_card i (nth i entries VUndefined))
                        (seq 0 6)) p).
  rewrite !updateTeam_rendered.
  rewrite (Hcards entries) by reflexivity.
  rewrite (Hcards (firstn 6 entries))
    by (intros j Hj; now apply nth_firstn_lt).
  repeat split.
Qed.

(** C4.  For an input sequence with fewer than 6 entries, [updateTeam]
    throws a TypeError to its caller: the read at the first missing index
    gives [undefined], whose [name] cannot be read.  No card is appended at
    or after that index, and when the entries that are there are slot
    entries, exactly their cards have been appended before the throw. *)
Theorem updateTeam_short_sequence_throws (entries : list value) (p : page) :
  length entries < 6 ->
  exists p',
    updateTeam (VArray entries) p = (p', Throw TypeError)
    /\ Get (VArray entries) (K_index (length entries)) = Normal VUndefined
    /\ make_card (VArray entries) (length entries) = Throw TypeError
    /\ length (teamGridEl p') <= length entries
    /\ (forallb SlotEntry entries = true ->
        teamGridEl p'
        = map (fun i => slot_card i (nth i entries VUndefined))
            (seq 0 (length entries))).
Proof.
  intros Hlen.
  assert (Hget : Get (VArray entries) (K_index (length entries))
                 = Normal VUndefined).
  { cbn [Get]. now rewrite nth_overflow. }
  pose proof (make_card_missing _ _ Hget) as Hthrow.
  destruct (updateTeam_throws _ _ _ p Hlen Hthrow) as (p' & Hrun & Hgrid).
  exists p'. repeat split; try assumption.
  intros Htyped. rewrite updateTeam_rendered in Hrun.
  rewrite (rendered_until (VArray entries)
             (fun i => slot_card i (nth i entries VUndefined))
             TypeError 6 0 (length entries)) in Hrun;
    [now injection Hrun as <- | assumption | | assumption].
  intros j Hj. apply make_card_SlotEntry; [reflexivity |].
  rewrite <- (firstn_all entries) in Htyped.
  apply (forallb_firstn_nth SlotEntry VUndefined (length entries));
    [assumption | lia | lia].
Qed.

(** C5, as the code has it.  An entry that is there (an object) but has no
    [name], or an undefined one, is rendered as an empty slot with the
    placeholder label and without an image: that card is in the grid at
    the entry's position when [updateTeam] returns, from any page, as soon
    as the loop gets to that index (the body completes at the earlier
    ones).  An entry that is itself missing or undefined is not defaulted:
    reading its [name] throws a TypeError and [updateTeam] stops before
    appending a card for it. *)
Theorem missing_name_defaults_missing_entry_throws
    (pokemon : value) (i : nat) :
  i < 6 ->
  (forall properties,
      Get pokemon (K_index i) = Normal (VObject properties) ->
      own_property "name" properties = None
      \/ own_property "name" properties = Some VUndefined ->
      exists card,
        make_card pokemon i = Normal card
        /\ name_textContent (card_nameEl card) = "Empty Slot"
        /\ sprite_img (card_spriteContainer card) = None
        /\ ((forall j, j < i ->
                exists earlier, make_card pokemon j = Normal earlier) ->
            forall p,
              nth_error (teamGridEl (fst (updateTeam pokemon p))) i
              = Some card))
  /\ (Get pokemon (K_index i) = Normal VUndefined ->
      make_card pokemon i = Throw TypeError
      /\ forall p, exists p',
           updateTeam pokemon p = (p', Throw TypeError)
           /\ length (teamGridEl p') <= i).
Proof.
  intros Hi. split.
  - intros properties Hget Hname.
    assert (Hcard : exists card,
               make_card pokemon i = Normal card
               /\ name_textContent (card_nameEl card) = "Empty Slot"
               /\ sprite_img (card_spriteContainer card) = None).
    { unfold make_card, pokemonName, pokemonNickname.
      rewrite Hget. cbn [cbind Get key_string].
      destruct (own_property "nickname" properties) as [nickname|];
        destruct Hname as [-> | ->]; cbn [cbind or_else ToBoolean];
        eexists; repeat split. }
    destruct Hcard as (card & Hmake & Hlabel & Himg).
    exists card.
    split; [exact Hmake |]. split; [exact Hlabel |]. split; [exact Himg |].
    intros Hbefore p. now apply updateTeam_reaches.
  - intros Hget. pose proof (make_card_missing _ _ Hget) as Hthrow.
    split; [assumption |]. intros p. now apply (updateTeam_throws _ i TypeError).
Qed.

End Rosters.

(** ** Incoming messages *)

Section Messages.
Context {numbers : Numbers} {host : Host}.

(** C3.  A message whose body is not a valid structured payload
    ([JSON.parse] throws) is logged and dropped: the handler completes
    normally, so no error escapes it; the socket is left as it was, so an
    open connection stays open; and the grid, like everything else but the
    console, is exactly what it was before the message. *)
Theorem malformed_message_is_discarded (body : string) (p : page) :
  JSON_parse body = None ->
  exists p',
    ws_onmessage body p = (p', Normal tt)
    /\ teamGridEl p' = teamGridEl p
    /\ ws p' = ws p
    /\ console p'
       = (console p
            ++ [console_error_exn "Error parsing message:" SyntaxError])%list
    /\ timers p' = timers p
    /\ connections p' = connections p
    /\ forall socket,
         ws p = Some socket -> ws_readyState socket = OPEN ->
         dispatch (message_event body) p = Some (p', Normal tt).
Proof.
  intros Hparse.
  assert (Hrun : ws_onmessage body p
                 = (with_console
                      (console_error_exn "Error parsing message:" SyntaxError)
                      p, Normal tt)).
  { unfold ws_onmessage, try_catch, bind, lift. now rewrite Hparse. }
  eexists. split; [exact Hrun |]. repeat split.
  intros socket Hws Hopen. cbn [dispatch]. now rewrite Hws, Hopen, Hrun.
Qed.

(** C9.  A message that parses but whose roster makes [updateTeam] throw
    at index [k] (the body completes for every index before [k] and throws
    at [k]) is swallowed by the handler's [catch]: the handler completes
    normally and leaves the socket as it was.  The grid is not preserved:
    it was cleared before the loop and now holds exactly the [k] cards made
    for the indices before [k], so any grid that did not have exactly [k]
    cards has changed. *)
Theorem throwing_update_leaves_partial_grid
    (body : string) (data pokemon : value) (k : nat) (e : exn) (p : page) :
  JSON_parse body = Some data ->
  Get data K_pokemon = Normal pokemon ->
  k < 6 ->
  (forall j, j < k -> exists card, make_card pokemon j = Normal card) ->
  make_card pokemon k = Throw e ->
  exists p',
    ws_onmessage body p = (p', Normal tt)
    /\ ws p' = ws p
    /\ console p'
       = (console p ++ [console_error_exn "Error parsing message:" e])%list
    /\ length (teamGridEl p') = k
    /\ (forall j card,
           j < k -> make_card pokemon j = Normal card ->
           nth_error (teamGridEl p') j = Some card)
    /\ (length (teamGridEl p) <> k -> teamGridEl p' <> teamGridEl p).
Proof.
  intros Hparse Hget Hk Hbefore Hthrow.
  set (f := fun j => match make_card pokemon j with
                     | Normal card => card
                     | Throw _ => slot_card j VUndefined
                     end).
  assert (Hf : forall j card, make_card pokemon j = Normal card -> f j = card).
  { intros j card E. unfold f. now rewrite E. }
  assert (Hrendered : rendered pokemon 0 6 = (map f (seq 0 k), Throw e)).
  { apply rendered_until; [assumption | | assumption].
    intros j Hj. destruct (Hbefore j) as [card E]; [lia |].
    now rewrite (Hf j card E). }
  assert (Hrun : ws_onmessage body p
                 = (with_console
                      (console_error_exn "Error parsing message:" e)
                      (with_teamGridEl (fun _ => map f (seq 0 k)) p),
                    Normal tt)).
  { unfold ws_onmessage, try_catch. unfold bind at 1, lift at 1.
    rewrite Hparse. unfold bind at 1, lift at 1. rewrite Hget.
    rewrite updateTeam_rendered, Hrendered. reflexivity. }
  eexists. split; [exact Hrun |].
  cbn [ws console teamGridEl with_console with_teamGridEl].
  assert (Hlen : length (map f (seq 0 k)) = k)
    by now rewrite length_map, length_seq.
  repeat split; [exact Hlen | |].
  - intros j card Hj E.
    rewrite nth_error_map, nth_error_seq.
    destruct (Nat.ltb_spec j k) as [_|]; [| lia].
    cbn. now rewrite (Hf j card E).
  - intros Hold Heq. apply Hold. now rewrite <- Heq.
Qed.

End Messages.

(** ** The image fallback chain *)

Section Fallback.
Context {numbers : Numbers} {host : Host}.

Lemma src_property_sprite (img : HTMLImageElement) (name extension : string) :
  img_src img = sprite_url name extension ->
  src_property img
  = (location_protocol ++ "//" ++ location_host ++ "/sprites/" ++ name)
      ++ extension.
Proof.
  unfold src_property, sprite_url. intros ->. now rewrite !append_assoc.
Qed.

Lemma onerror_after_png (name : string) (img : HTMLImageElement)
    (container : SpriteContainer) :
  img_src img = sprite_url name ".png" ->
  ToString (img_onerror img) = Normal name ->
  img_onerror_handler img container
  = (with_img (set_src (sprite_url name ".gif") img) container, Normal tt).
Proof.
  intros Hsrc Hname. unfold img_onerror_handler.
  rewrite (src_property_sprite img name ".png" Hsrc).
  now rewrite endsWith_append, Hname.
Qed.

Lemma onerror_after_gif (name : string) (img : HTMLImageElement)
    (container : SpriteContainer) :
  img_src img = sprite_url name ".gif" ->
  ToString (img_onerror img) = Normal name ->
  img_onerror_handler img container
  = (with_img (set_src (sprite_url name ".jpg") img) container, Normal tt).
Proof.
  intros Hsrc Hname. unfold img_onerror_handler.
  rewrite (src_property_sprite img name ".gif" Hsrc).
  rewrite endsWith_other by reflexivity.
  now rewrite endsWith_append, Hname.
Qed.

Lemma onerror_after_jpg (name : string) (img : HTMLImageElement)
    (container : SpriteContainer) :
  img_src img = sprite_url name ".jpg" ->
  img_onerror_handler img container
  = ({| sprite_className :=
          classList_add "empty" (sprite_className container);
        sprite_img := Some (set_display "none" img) |}, Normal tt).
Proof.
  intros Hsrc. unfold img_onerror_handler.
  rewrite (src_property_sprite img name ".jpg" Hsrc).
  now rewrite !endsWith_other by reflexivity.
Qed.

Lemma settle_settled (available : string -> bool) (fuel : nat)
    (container : SpriteContainer) :
  settled container = true -> settle available fuel container = container.
Proof.
  destruct fuel as [|fuel]; [reflexivity |]. cbn [settle].
  unfold settled, image_result.
  destruct (sprite_img container) as [img|]; [| reflexivity].
  now destruct (img_loading img).
Qed.

Lemma settle_add (available : string -> bool) (n m : nat)
    (container : SpriteContainer) :
  settle available (n + m) container
  = settle available m (settle available n container).
Proof.
  revert container. induction n as [|n IH]; intros container;
    [reflexivity |].
  cbn [Nat.add settle]. unfold image_result.
  destruct (sprite_img container) as [img|] eqn:Eimg.
  - destruct (img_loading img) eqn:Eloading.
    + destruct (available (img_src img)); [apply IH |].
      destruct (img_onerror_handler _ _). apply IH.
    + symmetry. apply settle_settled. unfold settled.
      now rewrite Eimg, Eloading.
  - symmetry. apply settle_settled. unfold settled. now rewrite Eimg.
Qed.

Lemma sprite_url_inj_extension (name a b : string) :
  String.length a = String.length b ->
  String.eqb a b = false ->
  sprite_url name a <> sprite_url name b.
Proof.
  intros Hlen Hne E.
  pose proof (endsWith_append ("/sprites/" ++ name) b) as Hb.
  pose proof (endsWith_other ("/sprites/" ++ name) b a Hlen Hne) as Ha.
  unfold sprite_url in E. rewrite <- !append_assoc in E.
  rewrite E in Ha. congruence.
Qed.

(** Rewrite the one call of the handler in the goal with [lemma]. *)
Ltac fire_onerror step :=
  match goal with
  | |- context [img_onerror_handler ?this ?parent] =>
      rewrite (step this parent)
        by (cbn; first [reflexivity | assumption])
  end.

(** The sprite container of a card made for a slot that is not empty. *)
Lemma make_card_sprite (pokemon v : value) (i : nat) (card : Card)
    (name : string) :
  make_card pokemon i = Normal card ->
  pokemonName pokemon i = Normal v ->
  isEmpty v = false ->
  ToString v = Normal name ->
  card_spriteContainer card
  = {| sprite_className := "sprite-container ";
       sprite_img :=
         Some {| img_src := sprite_url name ".png";
                 img_alt := name;
                 img_display := "";
                 img_onerror := v;
                 img_requested := [sprite_url name ".png"];
                 img_loading := true |} |}.
Proof.
  intros Hmake Hv Hempty Hname. unfold make_card in Hmake.
  rewrite Hv in Hmake. cbn [cbind] in Hmake.
  destruct (pokemonNickname pokemon i) as [nickname|]; [| discriminate].
  cbn [cbind] in Hmake. rewrite Hempty in Hmake.
  unfold make_img in Hmake. rewrite Hname in Hmake. cbn [cbind] in Hmake.
  destruct (ToString (or_else nickname v)) as [label|]; [| discriminate].
  cbn [cbind] in Hmake. now injection Hmake as <-.
Qed.

(** C1.  For a slot that is not empty and whose sprite the server has
    under none of the three extensions, the image asks for exactly three
    resources, [/sprites/<name>.png], [/sprites/<name>.gif] and
    [/sprites/<name>.jpg] in this order and each once; after the third
    failure nothing is outstanding any more, the image is hidden
    ([display: none]) and its container carries the [empty] class.  Three
    fetches are enough, and more fuel changes nothing. *)
Theorem image_fallback_chain
    (pokemon v : value) (i : nat) (card : Card) (name : string)
    (available : string -> bool) (fuel : nat) :
  make_card pokemon i = Normal card ->
  pokemonName pokemon i = Normal v ->
  isEmpty v = false ->
  ToString v = Normal name ->
  available (sprite_url name ".png") = false ->
  available (sprite_url name ".gif") = false ->
  available (sprite_url name ".jpg") = false ->
  3 <= fuel ->
  exists img,
    sprite_img (settle available fuel (card_spriteContainer card)) = Some img
    /\ img_requested img
       = [sprite_url name ".png"; sprite_url name ".gif";
          sprite_url name ".jpg"]
    /\ NoDup (img_requested img)
    /\ img_loading img = false
    /\ img_display img = "none"
    /\ classList_contains
         (sprite_className (settle available fuel (card_spriteContainer card)))
         "empty" = true
    /\ settle available fuel (card_spriteContainer card)
       = settle available 3 (card_spriteContainer card).
Proof.
  intros Hmake Hv Hempty Hname Hpng Hgif Hjpg Hfuel.
  rewrite (make_card_sprite pokemon v i card name Hmake Hv Hempty Hname).
  destruct fuel as [|[|[|fuel]]]; try lia.
  set (final := settle available 3 _).
  assert (Hfinal : final
            = {| sprite_className := classList_add "empty" "sprite-container ";
                 sprite_img :=
                   Some {| img_src := sprite_url name ".jpg";
                           img_alt := name;
                           img_display := "none";
                           img_onerror := v;
                           img_requested :=
                             [sprite_url name ".png"; sprite_url name ".gif";
                              sprite_url name ".jpg"];
                           img_loading := false |} |}).
  { unfold final. cbn [settle sprite_img img_src]. rewrite Hpng.
    unfold image_result at 1. cbn [sprite_img img_loading with_img set_src set_loading].
    fire_onerror (onerror_after_png name).
    cbn [with_img sprite_img set_src img_src]. rewrite Hgif.
    unfold image_result at 1. cbn [sprite_img img_loading with_img set_src set_loading].
    fire_onerror (onerror_after_gif name).
    cbn [with_img sprite_img set_src img_src]. rewrite Hjpg.
    unfold image_result at 1. cbn [sprite_img img_loading with_img set_src set_loading].
    fire_onerror (onerror_after_jpg name).
    reflexivity. }
  assert (Hmore : settle available (3 + fuel)
                    {| sprite_className := "sprite-container ";
                       sprite_img :=
                         Some {| img_src := sprite_url name ".png";
                                 img_alt := name;
                                 img_display := "";
                                 img_onerror := v;
                                 img_requested := [sprite_url name ".png"];
                                 img_loading := true |} |}
                  = final).
  { rewrite settle_add. fold final. apply settle_settled.
    now rewrite Hfinal. }
  change (S (S (S fuel))) with (3 + fuel).
  rewrite Hmore, Hfinal. cbn [sprite_img sprite_className].
  eexists. split; [reflexivity |]. cbn [img_requested img_loading img_display].
  repeat split; try reflexivity.
  repeat constructor; cbn [In]; intros Hin;
    repeat destruct Hin as [Hin|Hin]; try contradiction;
    revert Hin; try apply sprite_url_inj_extension; try reflexivity;
    intros Hin; symmetry in Hin; revert Hin;
    apply sprite_url_inj_extension; reflexivity.
Qed.

End Fallback.

(** ** Reconnection *)

Section Reconnect.
Context {numbers : Numbers} {host : Host}.

Lemma connect_run (p : page) :
  connect p
  = ({| clock := clock p;
        ws := Some {| ws_url := ws_endpoint; ws_readyState := CONNECTING |};
        teamGridEl := teamGridEl p;
        console := console p;
        timers := timers p;
        connections := (connections p ++ [ws_endpoint])%list |}, Normal tt).
Proof. reflexivity. Qed.

Lemma ws_onclose_run (p : page) :
  ws_onclose p
  = ({| clock := clock p;
        ws := ws p;
        teamGridEl := teamGridEl p;
        console := (console p ++ [console_log "Disconnected from server"])%list;
        timers := (timers p ++ [reconnect_timer (clock p)])%list;
        connections := connections p |}, Normal tt).
Proof. reflexivity. Qed.

(** One round from a page with a live socket and no pending timer ends in
    such a page again, with one more connection on record. *)
Lemma reconnect_round (p : page) (socket : WebSocket) :
  ws p = Some socket ->
  ws_readyState socket = CONNECTING ->
  timers p = [] ->
  exists q socket',
    run [close_event 1006 false; elapse 2000; timeout_event 0] p = Some q
    /\ ws q = Some socket'
    /\ ws_readyState socket' = CONNECTING
    /\ timers q = []
    /\ connections q = (connections p ++ [ws_endpoint])%list.
Proof.
  intros Hws Hstate Htimers.
  destruct p as [now w grid log ts conns]. cbn in Hws, Htimers. subst w ts.
  cbn [run dispatch ws]. rewrite Hstate.
  rewrite ws_onclose_run.
  cbn [clock ws teamGridEl console timers connections with_ws with_clock app
       nth_error reconnect_timer timer_due timer_callback run_callback].
  rewrite N.leb_refl, connect_run.
  eexists. eexists. repeat split.
Qed.

Lemma reconnect_rounds_run (n : nat) (p : page) (socket : WebSocket) :
  ws p = Some socket ->
  ws_readyState socket = CONNECTING ->
  timers p = [] ->
  exists q,
    run (reconnect_rounds n) p = Some q
    /\ length (connections q) = length (connections p) + n
    /\ timers q = [].
Proof.
  revert p socket. induction n as [|n IH]; intros p socket Hws Hstate Htimers.
  - exists p. cbn. now rewrite Nat.add_0_r.
  - destruct (reconnect_round p socket Hws Hstate Htimers)
      as (q & socket' & Hrun & Hws' & Hstate' & Htimers' & Hconns).
    destruct (IH q socket' Hws' Hstate' Htimers')
      as (q' & Hrun' & Hlen & Hdone).
    exists q'. repeat split; [| | assumption].
    + cbn [reconnect_rounds].
      change (close_event 1006 false :: elapse 2000 :: timeout_event 0
                :: reconnect_rounds n)
        with ([close_event 1006 false; elapse 2000; timeout_event 0]
                ++ reconnect_rounds n)%list.
      clear - Hrun Hrun'.
      cbn [run app] in *.
      destruct (dispatch (close_event 1006 false) p) as [[p1 r1]|];
        [| discriminate].
      destruct (dispatch (elapse 2000) p1) as [[p2 r2]|]; [| discriminate].
      destruct (dispatch (timeout_event 0) p2) as [[p3 r3]|];
        [| discriminate].
      now injection Hrun as ->.
    + rewrite Hlen, Hconns, length_app. cbn [length]. lia.
Qed.

(** C6.  Whenever a close event is delivered, whatever its code and
    whether or not the closure was clean, the handler leaves exactly one
    new pending timer, for [connect], due 2000 ms after the close; nothing
    is connected yet.  That timer cannot fire before the clock has
    advanced by 2000 ms, and when it fires it calls [connect] exactly once
    (one more socket) and is gone.  No counter limits the retries: for
    every [n], [n] rounds of close, wait and fire after the first
    connection each reconnect, giving [n + 1] connections. *)
Theorem close_schedules_one_reconnect
    (p p' : page) (code : N) (wasClean : bool) (result : completion unit) :
  dispatch (close_event code wasClean) p = Some (p', result) ->
  result = Normal tt
  /\ timers p' = (timers p ++ [reconnect_timer (clock p)])%list
  /\ timer_due (reconnect_timer (clock p)) = (clock p + 2000)%N
  /\ connections p' = connections p
  /\ (forall q k q' result',
         nth_error (timers q) k = Some (reconnect_timer (clock p)) ->
         dispatch (timeout_event k) q = Some (q', result') ->
         (clock p + 2000 <= clock q)%N
         /\ result' = Normal tt
         /\ connections q' = (connections q ++ [ws_endpoint])%list
         /\ timers q' = remove_nth k (timers q))
  /\ (forall n, exists q,
         run (reconnect_rounds n) initial_page = Some q
         /\ length (connections q) = S n).
Proof.
  intros Hclose.
  assert (Hrun : (p', result)
                 = ws_onclose
                     (with_ws (option_map (set_readyState CLOSED) (ws p)) p)).
  { cbn [dispatch] in Hclose.
    destruct (ws p) as [socket|]; [| discriminate].
    destruct (ws_readyState socket); try discriminate;
      now injection Hclose as <- <-. }
  rewrite ws_onclose_run in Hrun. injection Hrun as -> ->.
  cbn [timers connections clock with_ws].
  repeat (split; [reflexivity |]). split.
  - intros q k q' result' Hnth Hfire.
    cbn [dispatch] in Hfire. rewrite Hnth in Hfire.
    destruct (N.leb_spec (timer_due (reconnect_timer (clock p))) (clock q))
      as [Hdue|_]; [| discriminate].
    cbn [reconnect_timer timer_callback run_callback] in Hfire.
    rewrite connect_run in Hfire. injection Hfire as <- <-.
    repeat split. exact Hdue.
  - intros n.
    destruct (reconnect_rounds_run n initial_page
                {| ws_url := ws_endpoint; ws_readyState := CONNECTING |})
      as (q & Hq & Hlen & _); try reflexivity.
    exists q. split; [assumption |]. rewrite Hlen. reflexivity.
Qed.

End Reconnect.

(** ** The properties on the concrete host *)

Section Examples.
#[local] Existing Instance Demo.integers.
#[local] Existing Instance Demo.host.

(** The pikachu sprite of the scenario roster, on a server without
    sprites: three requests, then the placeholder. *)
Lemma image_fallback_chain_pikachu :
  exists img,
    sprite_img
      (settle Demo.nowhere 3
         (card_spriteContainer (slot_card 0 (Demo.entry "pikachu" "Sparky"))))
    = Some img
    /\ img_requested img
       = ["/sprites/pikachu.png"; "/sprites/pikachu.gif";
          "/sprites/pikachu.jpg"]
    /\ NoDup (img_requested img)
    /\ img_loading img = false
    /\ img_display img = "none"
    /\ classList_contains
         (sprite_className
            (settle Demo.nowhere 3
               (card_spriteContainer
                  (slot_card 0 (Demo.entry "pikachu" "Sparky")))))
         "empty" = true
    /\ settle Demo.nowhere 3
         (card_spriteContainer (slot_card 0 (Demo.entry "pikachu" "Sparky")))
       = settle Demo.nowhere 3
           (card_spriteContainer
              (slot_card 0 (Demo.entry "pikachu" "Sparky"))).
Proof.
  apply (image_fallback_chain Demo.roster (VString "pikachu") 0
           (slot_card 0 (Demo.entry "pikachu" "Sparky")) "pikachu"
           Demo.nowhere 3);
    first [reflexivity | apply le_n].
Defined.

(** Seven entries: six cards, the seventh entry ignored. *)
Lemma updateTeam_renders_six_cards_unnamed :
  exists p',
    updateTeam Demo.unnamed_roster blank_page = (p', Normal tt)
    /\ teamGridEl p'
       = map (fun i =>
                slot_card i
                  (nth i [Demo.entry "pikachu" "Sparky"; Demo.entry "eevee" "";
                          VObject []; VObject []; VObject []; VObject [];
                          Demo.entry "mew" "Seventh"] VUndefined))
           (seq 0 6)
    /\ length (teamGridEl p') = 6
    /\ updateTeam
         (VArray
            (firstn 6
               [Demo.entry "pikachu" "Sparky"; Demo.entry "eevee" "";
                VObject []; VObject []; VObject []; VObject [];
                Demo.entry "mew" "Seventh"]))
         blank_page = (p', Normal tt).
Proof.
  apply (updateTeam_renders_six_cards
           [Demo.entry "pikachu" "Sparky"; Demo.entry "eevee" "";
            VObject []; VObject []; VObject []; VObject [];
            Demo.entry "mew" "Seventh"] blank_page).
  - cbn [length]. lia.
  - reflexivity.
Defined.

(** An unterminated object is no JSON text. *)
Lemma malformed_message_is_discarded_brace :
  exists p',
    ws_onmessage "{" initial_page = (p', Normal tt)
    /\ teamGridEl p' = teamGridEl initial_page
    /\ ws p' = ws initial_page
    /\ console p'
       = (console initial_page
            ++ [console_error_exn "Error parsing message:" SyntaxError])%list
    /\ timers p' = timers initial_page
    /\ connections p' = connections initial_page
    /\ forall socket,
         ws initial_page = Some socket -> ws_readyState socket = OPEN ->
         dispatch (message_event "{") initial_page = Some (p', Normal tt).
Proof.
  apply (malformed_message_is_discarded "{" initial_page). reflexivity.
Defined.

(** Two entries: the third read throws. *)
Lemma updateTeam_short_sequence_throws_two :
  exists p',
    updateTeam Demo.short_roster blank_page = (p', Throw TypeError)
    /\ Get Demo.short_roster (K_index 2) = Normal VUndefined
    /\ make_card Demo.short_roster 2 = Throw TypeError
    /\ length (teamGridEl p') <= 2
    /\ (forallb SlotEntry
          [Demo.entry "pikachu" "Sparky";
           VObject [("name", VString "eevee")]] = true ->
        teamGridEl p'
        = map (fun i =>
                 slot_card i
                   (nth i [Demo.entry "pikachu" "Sparky";
                           VObject [("name", VString "eevee")]] VUndefined))
            (seq 0 2)).
Proof.
  apply (updateTeam_short_sequence_throws
           [Demo.entry "pikachu" "Sparky";
            VObject [("name", VString "eevee")]] blank_page).
  cbn [length]. lia.
Defined.

(** C5 as stated fails: index 2 of the two-entry roster is missing, and
    the loop body throws there instead of making an empty card; the grid
    stops at two cards. *)
Lemma missing_entry_is_not_an_empty_slot :
  Get Demo.short_roster (K_index 2) = Normal VUndefined
  /\ ~ (exists card,
          make_card Demo.short_roster 2 = Normal card
          /\ name_textContent (card_nameEl card) = "Empty Slot")
  /\ snd (updateTeam Demo.short_roster blank_page) = Throw TypeError
  /\ length (teamGridEl (fst (updateTeam Demo.short_roster blank_page))) = 2.
Proof.
  repeat split.
  intros (card & Hmake & _). discriminate Hmake.
Qed.

Lemma missing_name_defaults_missing_entry_throws_two :
  (exists card,
      make_card Demo.roster 1 = Normal card
      /\ name_textContent (card_nameEl card) = "Empty Slot"
      /\ sprite_img (card_spriteContainer card) = None
      /\ nth_error (teamGridEl (fst (updateTeam Demo.roster blank_page))) 1
         = Some card)
  /\ snd (updateTeam Demo.roster blank_page) = Normal tt
  /\ make_card Demo.short_roster 2 = Throw TypeError
  /\ exists p',
       updateTeam Demo.short_roster blank_page = (p', Throw TypeError)
       /\ length (teamGridEl p') <= 2.
Proof.
  split; [| split; [reflexivity |]].
  - destruct (proj1 (missing_name_defaults_missing_entry_throws
                       Demo.roster 1 ltac:(lia)) [] eq_refl
                (or_introl eq_refl))
      as (card & Hmake & Hlabel & Himg & Hgrid).
    exists card.
    split; [exact Hmake |]. split; [exact Hlabel |]. split; [exact Himg |].
    apply Hgrid. intros [|j] Hj; [eexists; reflexivity | lia].
  - destruct (proj2 (missing_name_defaults_missing_entry_throws
                       Demo.short_roster 2 ltac:(lia)) eq_refl)
      as [Hthrow Hrun].
    split; [exact Hthrow | exact (Hrun blank_page)].
Defined.

(** The connection of the initial page fails abnormally. *)
Lemma close_schedules_one_reconnect_initial :
  timers (fst (ws_onclose
                 (with_ws
                    (Some {| ws_url := "ws://localhost:8080/ws";
                             ws_readyState := CLOSED |}) initial_page)))
  = [reconnect_timer 0]
  /\ forall n, exists q,
       run (reconnect_rounds n) initial_page = Some q
       /\ length (connections q) = S n.
Proof.
  assert (Hclose : dispatch (close_event 1006 false) initial_page
                   = Some
                       (fst (ws_onclose
                               (with_ws
                                  (Some {| ws_url := "ws://localhost:8080/ws";
                                           ws_readyState := CLOSED |})
                                  initial_page)),
                        Normal tt))
    by reflexivity.
  destruct (close_schedules_one_reconnect _ _ _ _ _ Hclose)
    as (_ & Htimers & _ & _ & _ & Hrounds).
  split; [exact Htimers | exact Hrounds].
Defined.

Lemma empty_name_renders_placeholder_scenario :
  (exists card,
      make_card Demo.roster 1 = Normal card
      /\ name_textContent (card_nameEl card) = "Empty Slot"
      /\ sprite_img (card_spriteContainer card) = None
      /\ classList_contains (card_className card) "empty" = true
      /\ classList_contains
           (sprite_className (card_spriteContainer card)) "empty" = true
      /\ nth_error (teamGridEl (fst (updateTeam Demo.roster blank_page))) 1
         = Some card)
  /\ snd (updateTeam Demo.roster blank_page) = Normal tt.
Proof.
  split; [| reflexivity].
  destruct (empty_name_renders_placeholder Demo.roster [] 1
              ltac:(lia) eq_refl (or_introl eq_refl))
    as (card & Hmake & Hlabel & Himg & Hclass & Hsprite & _ & Hgrid).
  exists card.
  split; [exact Hmake |]. split; [exact Hlabel |]. split; [exact Himg |].
  split; [exact Hclass |]. split; [exact Hsprite |].
  apply Hgrid. intros [|j] Hj; [eexists; reflexivity | lia].
Defined.

(** The nickname of the first card of the scenario, and the name of the
    second card of a full roster whose second entry has no nickname. *)
Lemma label_is_nickname_else_name_scenario :
  (exists card,
      make_card Demo.roster 0 = Normal card
      /\ name_textContent (card_nameEl card) = "Sparky"
      /\ nth_error (teamGridEl (fst (updateTeam Demo.roster blank_page))) 0
         = Some card)
  /\ snd (updateTeam Demo.roster blank_page) = Normal tt
  /\ (exists card,
        make_card Demo.plain_roster 1 = Normal card
        /\ name_textContent (card_nameEl card) = "eevee"
        /\ nth_error
             (teamGridEl (fst (updateTeam Demo.plain_roster blank_page))) 1
           = Some card)
  /\ snd (updateTeam Demo.plain_roster blank_page) = Normal tt.
Proof.
  split; [| split; [reflexivity | split; [| reflexivity]]].
  - destruct (proj1 (label_is_nickname_else_name Demo.roster
                       [("name", VString "pikachu");
                        ("nickname", VString "Sparky")] 0 "pikachu"
                       ltac:(lia) eq_refl eq_refl eq_refl)
                "Sparky" eq_refl eq_refl)
      as (card & Hmake & Hlabel & _ & Hgrid).
    exists card. split; [exact Hmake |]. split; [exact Hlabel |].
    apply Hgrid. intros j Hj. lia.
  - destruct (proj2 (label_is_nickname_else_name Demo.plain_roster
                       [("name", VString "eevee")] 1 "eevee"
                       ltac:(lia) eq_refl eq_refl eq_refl) eq_refl)
      as (card & Hmake & Hlabel & _ & Hgrid).
    exists card. split; [exact Hmake |]. split; [exact Hlabel |].
    apply Hgrid. intros [|j] Hj; [eexists; reflexivity | lia].
Defined.

(** The message with two empty objects: two placeholder cards, then the
    throw at index 2, caught. *)
Lemma throwing_update_leaves_partial_grid_two :
  exists p',
    ws_onmessage Demo.two_slots_text initial_page = (p', Normal tt)
    /\ ws p' = ws initial_page
    /\ console p'
       = (console initial_page
            ++ [console_error_exn "Error parsing message:" TypeError])%list
    /\ length (teamGridEl p') = 2
    /\ (forall j card,
           j < 2 ->
           make_card (VArray [VObject []; VObject []]) j = Normal card ->
           nth_error (teamGridEl p') j = Some card)
    /\ (length (teamGridEl initial_page) <> 2 ->
        teamGridEl p' <> teamGridEl initial_page).
Proof.
  apply (throwing_update_leaves_partial_grid Demo.two_slots_text
           Demo.two_slots (VArray [VObject []; VObject []]) 2 TypeError
           initial_page);
    try reflexivity; [lia |].
  intros [|[|j]] Hj; [eexists; reflexivity | eexists; reflexivity | lia].
Defined.

Lemma empty_nickname_renders_name_eevee :
  (exists card,
      make_card Demo.unnamed_roster 1 = Normal card
      /\ name_textContent (card_nameEl card) = "eevee"
      /\ nth_error
           (teamGridEl (fst (updateTeam Demo.unnamed_roster blank_page))) 1
         = Some card)
  /\ snd (updateTeam Demo.unnamed_roster blank_page) = Normal tt.
Proof.
  split; [| reflexivity].
  destruct (empty_nickname_renders_name Demo.unnamed_roster
              [("name", VString "eevee"); ("nickname", VString "")] 1 "eevee"
              ltac:(lia) eq_refl eq_refl eq_refl eq_refl)
    as (card & Hmake & Hlabel & _ & Hgrid).
  exists card. split; [exact Hmake |]. split; [exact Hlabel |].
  apply Hgrid. intros [|j] Hj; [eexists; reflexivity | lia].
Defined.

End Examples.

(** * Further properties of the renderer *)

Section RendererMore.
Context {numbers : Numbers} {host : Host}.

(** A value whose property can be read lets every property be read. *)
Lemma Get_siblings (v x : value) (k k' : key) :
  Get v k = Normal x -> exists y, Get v k' = Normal y.
Proof.
  destruct v as [| | | |s|elements|properties]; cbn [Get];
    try discriminate; intros _.
  - now eexists.
  - now eexists.
  - destruct k'; try (now eexists). destruct (String.get i s); now eexists.
  - destruct k'; now eexists.
  - destruct (own_property _ _); now eexists.
Qed.

Lemma make_card_ext (pokemon pokemon' : value) (i : nat) :
  Get pokemon (K_index i) = Get pokemon' (K_index i) ->
  make_card pokemon i = make_card pokemon' i.
Proof.
  intros E. unfold make_card, pokemonName, pokemonNickname. now rewrite E.
Qed.

Lemma rendered_ext (pokemon pokemon' : value) (count i : nat) :
  (forall j, i <= j < i + count ->
             Get pokemon (K_index j) = Get pokemon' (K_index j)) ->
  rendered pokemon i count = rendered pokemon' i count.
Proof.
  revert i. induction count as [|count IH]; intros i Hall; [reflexivity |].
  cbn [rendered]. rewrite (make_card_ext pokemon pokemon' i) by (apply Hall; lia).
  rewrite IH; [reflexivity |]. intros j Hj. apply Hall. lia.
Qed.

(** The three cases of a card the loop body made. *)
Lemma make_card_cases (pokemon : value) (i : nat) (card : Card) :
  make_card pokemon i = Normal card ->
  exists v w,
    pokemonName pokemon i = Normal v
    /\ pokemonNickname pokemon i = Normal w
    /\ ((isEmpty v = true
         /\ card
            = {| card_className := "pokemon-card empty fade-in";
                 card_animationDelay := animationDelay i;
                 card_spriteContainer :=
                   {| sprite_className := "sprite-container empty";
                      sprite_img := None |};
                 card_nameEl :=
                   {| name_className := "pokemon-name empty";
                      name_textContent := "Empty Slot" |} |})
        \/ exists name label,
             isEmpty v = false
             /\ ToString v = Normal name
             /\ ToString (or_else w v) = Normal label
             /\ card
                = {| card_className := "pokemon-card  fade-in";
                     card_animationDelay := animationDelay i;
                     card_spriteContainer :=
                       {| sprite_className := "sprite-container ";
                          sprite_img :=
                            Some {| img_src := sprite_url name ".png";
                                    img_alt := name;
                                    img_display := "";
                                    img_onerror := v;
                                    img_requested := [sprite_url name ".png"];
                                    img_loading := true |} |};
                     card_nameEl :=
                       {| name_className := "pokemon-name ";
                          name_textContent := label |} |}).
Proof.
  intros Hmake. unfold make_card in Hmake.
  destruct (pokemonName pokemon i) as [v|] eqn:Ev; [| discriminate].
  destruct (pokemonNickname pokemon i) as [w|] eqn:Ew; [| discriminate].
  exists v, w. repeat split. cbn [cbind] in Hmake.
  destruct (isEmpty v) eqn:Eempty.
  - left. split; [reflexivity |]. cbn [cbind] in Hmake.
    now injection Hmake as <-.
  - right. unfold make_img in Hmake.
    destruct (ToString v) as [name|] eqn:Ename; [| discriminate].
    cbn [cbind] in Hmake.
    destruct (ToString (or_else w v)) as [label|] eqn:Elabel;
      [| discriminate].
    cbn [cbind] in Hmake. exists name, label.
    repeat split. now injection Hmake as <-.
Qed.

(** X1.  Full redraw: [updateTeam] changes nothing but the grid, whether it
    completes or throws; the grid and the completion it produces do not
    depend on the page it starts from; and running it again on its own
    result changes nothing. *)
Theorem updateTeam_full_redraw (pokemon : value) (p1 p2 : page) :
  teamGridEl (fst (updateTeam pokemon p1))
  = teamGridEl (fst (updateTeam pokemon p2))
  /\ snd (updateTeam pokemon p1) = snd (updateTeam pokemon p2)
  /\ clock (fst (updateTeam pokemon p1)) = clock p1
  /\ ws (fst (updateTeam pokemon p1)) = ws p1
  /\ console (fst (updateTeam pokemon p1)) = console p1
  /\ timers (fst (updateTeam pokemon p1)) = timers p1
  /\ connections (fst (updateTeam pokemon p1)) = connections p1
  /\ updateTeam pokemon (fst (updateTeam pokemon p1)) = updateTeam pokemon p1.
Proof.
  rewrite !updateTeam_rendered. cbn [fst snd]. repeat split.
Qed.

(** X2.  [updateTeam] leaves at most six cards, and exactly six precisely
    when it completes; when it throws, the exception is a TypeError. *)
Theorem updateTeam_six_iff_complete
    (pokemon : value) (p p' : page) (result : completion unit) :
  updateTeam pokemon p = (p', result) ->
  length (teamGridEl p') <= 6
  /\ (result = Normal tt <-> length (teamGridEl p') = 6)
  /\ (result = Normal tt \/ result = Throw TypeError).
Proof.
  rewrite updateTeam_rendered.
  destruct (rendered_cases pokemon 6 0)
    as [[Hend Hlen]|(k & e & Hk & Hthrow & Hend & Hlen)];
    destruct (rendered pokemon 0 6) as [cards ending];
    cbn [fst snd] in *; intros [= <- <-];
    cbn [teamGridEl with_teamGridEl]; rewrite Hend, Hlen.
  - repeat split; auto.
  - apply make_card_TypeError in Hthrow as ->.
    repeat split; try lia; try discriminate; auto.
Qed.

(** X3.  [updateTeam] sees its argument only through the six reads
    [pokemon[0]] to [pokemon[5]]: two rosters that agree on them are
    rendered alike, whatever else they are or hold (no [length] is
    consulted, an array-like object does as well as an array). *)
Theorem updateTeam_reads_six_indices (pokemon pokemon' : value) (p : page) :
  (forall i, i < 6 -> Get pokemon (K_index i) = Get pokemon' (K_index i)) ->
  updateTeam pokemon p = updateTeam pokemon' p.
Proof.
  intros Hsame. rewrite !updateTeam_rendered.
  rewrite (rendered_ext pokemon pokemon' 6 0); [reflexivity |].
  intros j Hj. apply Hsame. lia.
Qed.

(** X4.  Emptiness is decided by truthiness: an entry that can be read
    at all (anything but [null] and [undefined], so also a number, a
    string or an array) and whose [name] is falsy (absent, [null],
    [false], zero, the empty string) is rendered as the placeholder card,
    whatever its nickname. *)
Theorem falsy_name_renders_placeholder
    (pokemon entry v : value) (i : nat) :
  Get pokemon (K_index i) = Normal entry ->
  Get entry K_name = Normal v ->
  ToBoolean v = false ->
  make_card pokemon i = Normal (slot_card i (VObject [])).
Proof.
  intros Hget Hname Hfalsy.
  destruct (Get_siblings entry v K_name K_nickname Hname) as [w Hnick].
  unfold make_card, pokemonName, pokemonNickname.
  rewrite Hget. cbn [cbind]. rewrite Hname, Hnick. cbn [cbind].
  assert (Hor : or_else v (VString "") = VString "")
    by (unfold or_else; now rewrite Hfalsy).
  rewrite !Hor. reflexivity.
Qed.

(** X5.  A truthy [name] of any type is printed into the sprite URL and
    the [alt] text, and the label is the printed nickname when the
    nickname is truthy and the printed name otherwise; a truthy nickname
    that cannot be printed makes the loop body throw. *)
Theorem truthy_fields_are_printed
    (pokemon entry v w : value) (name : string) (i : nat) :
  Get pokemon (K_index i) = Normal entry ->
  Get entry K_name = Normal v ->
  Get entry K_nickname = Normal w ->
  ToBoolean v = true ->
  ToString v = Normal name ->
  (forall label,
      ToString (if ToBoolean w then w else v) = Normal label ->
      exists card,
        make_card pokemon i = Normal card
        /\ name_textContent (card_nameEl card) = label
        /\ sprite_img (card_spriteContainer card)
           = Some {| img_src := sprite_url name ".png";
                     img_alt := name;
                     img_display := "";
                     img_onerror := v;
                     img_requested := [sprite_url name ".png"];
                     img_loading := true |})
  /\ (forall e,
         ToBoolean w = true -> ToString w = Throw e ->
         make_card pokemon i = Throw TypeError).
Proof.
  intros Hget Hname Hnick Htruthy Hprint.
  assert (Hmake : make_card pokemon i
            = cbind (ToString (if ToBoolean w then w else v)) (fun label =>
                Normal
                  {| card_className := "pokemon-card  fade-in";
                     card_animationDelay := animationDelay i;
                     card_spriteContainer :=
                       {| sprite_className := "sprite-container ";
                          sprite_img :=
                            Some {| img_src := sprite_url name ".png";
                                    img_alt := name;
                                    img_display := "";
                                    img_onerror := v;
                                    img_requested := [sprite_url name ".png"];
                                    img_loading := true |} |};
                     card_nameEl :=
                       {| name_className := "pokemon-name ";
                          name_textContent := label |} |})).
  { unfold make_card, pokemonName, pokemonNickname, make_img.
    rewrite Hget. cbn [cbind]. rewrite Hname, Hnick. cbn [cbind].
    assert (Hor : or_else v (VString "") = v)
      by (unfold or_else; now rewrite Htruthy).
    rewrite !Hor. unfold isEmpty. rewrite Htruthy.
    cbn [negb]. rewrite Hprint. cbn [cbind].
    assert (Hlabel : or_else (or_else w (VString "")) v
                     = if ToBoolean w then w else v).
    { unfold or_else. now destruct (ToBoolean w) eqn:Ew; [rewrite Ew |]. }
    rewrite Hlabel. reflexivity. }
  split.
  - intros label Hlabel. rewrite Hmake, Hlabel. cbn [cbind].
    eexists. repeat split.
  - intros e Hw Hthrow. rewrite Hmake, Hw, Hthrow. cbn [cbind].
    now rewrite (ToString_TypeError w e Hthrow).
Qed.

(** X6.  A truthy [name] that cannot be printed (an object carrying its
    own [toString] property, or a list holding one) makes the loop body
    throw a TypeError, so [updateTeam] throws and appends no card at or
    after that index. *)
Theorem unprintable_name_throws
    (pokemon entry v : value) (e : exn) (i : nat) (p : page) :
  i < 6 ->
  Get pokemon (K_index i) = Normal entry ->
  Get entry K_name = Normal v ->
  ToBoolean v = true ->
  ToString v = Throw e ->
  make_card pokemon i = Throw TypeError
  /\ exists p',
       updateTeam pokemon p = (p', Throw TypeError)
       /\ length (teamGridEl p') <= i.
Proof.
  intros Hi Hget Hname Htruthy Hthrow.
  destruct (Get_siblings entry v K_name K_nickname Hname) as [w Hnick].
  assert (Hmake : make_card pokemon i = Throw TypeError).
  { unfold make_card, pokemonName, pokemonNickname, make_img.
    rewrite Hget. cbn [cbind]. rewrite Hname, Hnick. cbn [cbind].
    assert (Hor : or_else v (VString "") = v)
      by (unfold or_else; now rewrite Htruthy).
    rewrite !Hor. unfold isEmpty. rewrite Htruthy.
    cbn [negb]. rewrite Hthrow. cbn [cbind].
    now rewrite (ToString_TypeError v e Hthrow). }
  split; [exact Hmake |]. now apply (updateTeam_throws pokemon i TypeError).
Qed.

(** X7.  The marks of a card agree: either it has no image, all three of
    its elements carry the [empty] class and its label is the placeholder,
    or it has an image that is visible and loading its [.png] sprite and
    none of its elements carries the [empty] class.  (A label that reads
    "Empty Slot" does not make a slot empty: a nickname can read so.) *)
Theorem card_marks_agree (pokemon : value) (i : nat) (card : Card) :
  make_card pokemon i = Normal card ->
  card_animationDelay card = animationDelay i
  /\ ((sprite_img (card_spriteContainer card) = None
       /\ classList_contains (card_className card) "empty" = true
       /\ classList_contains
            (sprite_className (card_spriteContainer card)) "empty" = true
       /\ classList_contains (name_className (card_nameEl card)) "empty"
          = true
       /\ name_textContent (card_nameEl card) = "Empty Slot")
      \/ (exists img,
             sprite_img (card_spriteContainer card) = Some img
             /\ img_display img = ""
             /\ img_loading img = true
             /\ endsWith (img_src img) ".png" = true
             /\ img_requested img = [img_src img]
             /\ classList_contains (card_className card) "empty" = false
             /\ classList_contains
                  (sprite_className (card_spriteContainer card)) "empty"
                = false
             /\ classList_contains (name_className (card_nameEl card))
                  "empty" = false)).
Proof.
  intros Hmake.
  destruct (make_card_cases pokemon i card Hmake)
    as (v & w & _ & _ & [[_ ->]|(name & label & _ & _ & _ & ->)]).
  - split; [reflexivity |]. left. repeat split.
  - split; [reflexivity |]. right. eexists. repeat split.
    cbn [img_src]. unfold sprite_url. rewrite <- append_assoc.
    apply endsWith_append.
Qed.

End RendererMore.

(** * Further properties of the message handler *)

Section MessagesMore.
Context {numbers : Numbers} {host : Host}.

Lemma rendered_SlotEntries (entries : list value) :
  6 <= length entries ->
  forallb SlotEntry (firstn 6 entries) = true ->
  rendered (VArray entries) 0 6
  = (map (fun i => slot_card i (nth i entries VUndefined)) (seq 0 6),
     Normal tt).
Proof.
  intros Hlen Htyped. apply rendered_all. intros j Hj.
  apply make_card_SlotEntry; [reflexivity |].
  apply (forallb_firstn_nth SlotEntry VUndefined 6); [assumption | lia | lia].
Qed.

(** What the handler does, by the way its [try] block ends. *)
Lemma ws_onmessage_run (body : string) (p : page) :
  ws_onmessage body p
  = match JSON_parse body with
    | None =>
        (with_console
           (console_error_exn "Error parsing message:" SyntaxError) p,
         Normal tt)
    | Some data =>
        match Get data K_pokemon with
        | Throw e =>
            (with_console (console_error_exn "Error parsing message:" e) p,
             Normal tt)
        | Normal pokemon =>
            match snd (rendered pokemon 0 6) with
            | Normal _ =>
                (with_teamGridEl (fun _ => fst (rendered pokemon 0 6)) p,
                 Normal tt)
            | Throw e =>
                (with_console
                   (console_error_exn "Error parsing message:" e)
                   (with_teamGridEl (fun _ => fst (rendered pokemon 0 6)) p),
                 Normal tt)
            end
        end
    end.
Proof.
  unfold ws_onmessage, try_catch. unfold bind at 1, lift at 1.
  destruct (JSON_parse body) as [data|]; [| reflexivity].
  unfold bind at 1, lift at 1.
  destruct (Get data K_pokemon) as [pokemon|e]; [| reflexivity].
  rewrite updateTeam_rendered.
  now destruct (snd (rendered pokemon 0 6)) as [[]|e].
Qed.

(** X8.  Whatever the message body, the handler completes normally: no
    error escapes it.  It never touches the socket, the timers, the
    connections or the clock, and it logs at most one error; when it logs
    nothing, the grid holds exactly six cards. *)
Theorem onmessage_never_throws (body : string) (p : page) :
  exists p',
    ws_onmessage body p = (p', Normal tt)
    /\ ws p' = ws p
    /\ timers p' = timers p
    /\ connections p' = connections p
    /\ clock p' = clock p
    /\ ((console p' = console p /\ length (teamGridEl p') = 6)
        \/ exists e,
             console p'
             = (console p
                  ++ [console_error_exn "Error parsing message:" e])%list).
Proof.
  rewrite ws_onmessage_run.
  destruct (JSON_parse body) as [data|].
  - destruct (Get data K_pokemon) as [pokemon|e].
    + destruct (rendered_cases pokemon 6 0)
        as [[Hend Hlen]|(k & e & _ & _ & Hend & _)]; rewrite Hend.
      * eexists. repeat split. left. split; [reflexivity | exact Hlen].
      * eexists. repeat split. right. now exists e.
    + eexists. repeat split. right. now exists e.
  - eexists. repeat split. right. now eexists.
Qed.

(** X9.  A message that parses to an object whose [pokemon] is a list of
    at least six slot entries replaces the grid by the six cards of the
    first six entries and logs nothing. *)
Theorem valid_message_renders_roster
    (body : string) (data : value) (entries : list value) (p : page) :
  JSON_parse body = Some data ->
  Get data K_pokemon = Normal (VArray entries) ->
  6 <= length entries ->
  forallb SlotEntry (firstn 6 entries) = true ->
  ws_onmessage body p
  = (with_teamGridEl
       (fun _ => map (fun i => slot_card i (nth i entries VUndefined))
                   (seq 0 6)) p,
     Normal tt).
Proof.
  intros Hparse Hget Hlen Htyped.
  rewrite ws_onmessage_run, Hparse, Hget.
  now rewrite (rendered_SlotEntries entries Hlen Htyped).
Qed.

(** X10.  A message that parses to [null] is stopped by the read of
    [data.pokemon]: [updateTeam] is never called, the grid stays as it
    was, and the TypeError is logged. *)
Theorem null_message_leaves_grid (body : string) (data : value) (p : page) :
  JSON_parse body = Some data ->
  data = VNull \/ data = VUndefined ->
  ws_onmessage body p
  = (with_console (console_error_exn "Error parsing message:" TypeError) p,
     Normal tt)
  /\ teamGridEl (fst (ws_onmessage body p)) = teamGridEl p.
Proof.
  intros Hparse Hdata. rewrite ws_onmessage_run, Hparse.
  destruct Hdata as [-> | ->]; now split.
Qed.

(** X11.  A message that parses to anything else without a roster (an
    object without [pokemon] or with a [null] one, a list, a number, a
    string, a boolean) empties the grid: [updateTeam] clears it and then
    throws on the read of index 0, and the TypeError is logged. *)
Theorem message_without_roster_clears_grid
    (body : string) (data pokemon : value) (p : page) :
  JSON_parse body = Some data ->
  Get data K_pokemon = Normal pokemon ->
  pokemon = VUndefined \/ pokemon = VNull ->
  ws_onmessage body p
  = (with_console (console_error_exn "Error parsing message:" TypeError)
       (with_teamGridEl (fun _ => []) p),
     Normal tt).
Proof.
  intros Hparse Hget Hroster. rewrite ws_onmessage_run, Hparse, Hget.
  now destruct Hroster as [-> | ->].
Qed.

End MessagesMore.

(** * Further properties of the image fallback *)

Section FallbackMore.
Context {numbers : Numbers} {host : Host}.

Ltac fire_handler step :=
  match goal with
  | |- context [img_onerror_handler ?this ?parent] =>
      rewrite (step this parent)
        by (cbn; first [reflexivity | assumption])
  end.

(** Three fetches settle the image of a fresh card, whatever the server
    has. *)
Lemma settle_three (available : string -> bool) (v : value) (name : string) :
  ToString v = Normal name ->
  settle available 3
    {| sprite_className := "sprite-container ";
       sprite_img :=
         Some {| img_src := sprite_url name ".png";
                 img_alt := name;
                 img_display := "";
                 img_onerror := v;
                 img_requested := [sprite_url name ".png"];
                 img_loading := true |} |}
  = {| sprite_className :=
         if chain_exhausted available name
         then classList_add "empty" "sprite-container "
         else "sprite-container ";
       sprite_img :=
         Some {| img_src := last (chain_requests available name) "";
                 img_alt := name;
                 img_display :=
                   if chain_exhausted available name then "none" else "";
                 img_onerror := v;
                 img_requested := chain_requests available name;
                 img_loading := false |} |}.
Proof.
  intros Hname. unfold chain_requests, chain_exhausted.
  cbn [settle sprite_img img_src].
  destruct (available (sprite_url name ".png")) eqn:Hpng.
  { unfold image_result.
    cbn [sprite_img img_loading with_img set_src set_loading].
    reflexivity. }
  unfold image_result at 1.
  cbn [sprite_img img_loading with_img set_src set_loading].
  fire_handler (onerror_after_png name).
  cbn [with_img sprite_img set_src img_src].
  destruct (available (sprite_url name ".gif")) eqn:Hgif.
  { unfold image_result.
    cbn [sprite_img img_loading with_img set_src set_loading].
    reflexivity. }
  unfold image_result at 1.
  cbn [sprite_img img_loading with_img set_src set_loading].
  fire_handler (onerror_after_gif name).
  cbn [with_img sprite_img set_src img_src].
  destruct (available (sprite_url name ".jpg")) eqn:Hjpg.
  { unfold image_result.
    cbn [sprite_img img_loading with_img set_src set_loading].
    reflexivity. }
  unfold image_result at 1.
  cbn [sprite_img img_loading with_img set_src set_loading].
  fire_handler (onerror_after_jpg name).
  reflexivity.
Qed.

(** X12.  The fallback chain on any server: the image of a slot that is
    not empty asks for the [.png], then the [.gif], then the [.jpg] sprite
    and stops at the first one the server has.  It stays visible and its
    container unmarked when one of them loaded; it is hidden and its
    container marked [empty] exactly when none did.  Either way nothing is
    outstanding after at most three fetches. *)
Theorem fallback_stops_at_first_available
    (pokemon v : value) (i : nat) (card : Card) (name : string)
    (available : string -> bool) (fuel : nat) :
  make_card pokemon i = Normal card ->
  pokemonName pokemon i = Normal v ->
  isEmpty v = false ->
  ToString v = Normal name ->
  3 <= fuel ->
  exists img,
    sprite_img (settle available fuel (card_spriteContainer card)) = Some img
    /\ img_requested img = chain_requests available name
    /\ img_src img = last (chain_requests available name) ""
    /\ img_loading img = false
    /\ img_display img
       = (if chain_exhausted available name then "none" else "")
    /\ classList_contains
         (sprite_className (settle available fuel (card_spriteContainer card)))
         "empty" = chain_exhausted available name
    /\ length (img_requested img) <= 3.
Proof.
  intros Hmake Hv Hempty Hname Hfuel.
  rewrite (make_card_sprite pokemon v i card name Hmake Hv Hempty Hname).
  replace fuel with (3 + (fuel - 3)) by lia.
  rewrite settle_add, (settle_three available v name Hname).
  rewrite settle_settled by reflexivity.
  cbn [sprite_img sprite_className].
  eexists. split; [reflexivity |].
  cbn [img_requested img_src img_loading img_display].
  repeat split.
  - now destruct (chain_exhausted available name).
  - unfold chain_requests.
    destruct (available _); [cbn; lia |]. destruct (available _); cbn; lia.
Qed.

End FallbackMore.

(** * Properties of the event loop *)

Section EventLoopMore.
Context {numbers : Numbers} {host : Host}.

Lemma replace_nth_length {A} (k : nat) (x : A) (l : list A) :
  length (replace_nth k x l) = length l.
Proof.
  revert k. induction l as [|y l IH]; intros [|k]; cbn; auto.
Qed.

Lemma replace_nth_other {A} (k j : nat) (x : A) (l : list A) :
  j <> k -> nth_error (replace_nth k x l) j = nth_error l j.
Proof.
  revert k j. induction l as [|y l IH]; intros k j Hne;
    destruct k, j; cbn; try reflexivity; try congruence.
  apply IH. lia.
Qed.

Lemma replace_nth_same {A} (k : nat) (x y : A) (l : list A) :
  nth_error l k = Some y -> nth_error (replace_nth k x l) k = Some x.
Proof.
  revert k. induction l as [|z l IH]; intros [|k]; cbn; try discriminate; auto.
Qed.

Lemma replace_nth_Forall {A} (P : A -> Prop) (k : nat) (x : A) (l : list A) :
  P x -> Forall P l -> Forall P (replace_nth k x l).
Proof.
  intros Hx Hall. revert k.
  induction Hall as [|y l Hy Hall IH]; intros [|k]; cbn; auto.
Qed.

Lemma remove_nth_length {A} (k : nat) (x : A) (l : list A) :
  nth_error l k = Some x -> S (length (remove_nth k l)) = length l.
Proof.
  revert k. induction l as [|y l IH]; intros [|k]; cbn; try discriminate;
    auto.
Qed.

(** What reaches the page through the message handler. *)
Lemma ws_onmessage_frame (body : string) (p : page) :
  snd (ws_onmessage body p) = Normal tt
  /\ ws (fst (ws_onmessage body p)) = ws p
  /\ timers (fst (ws_onmessage body p)) = timers p
  /\ connections (fst (ws_onmessage body p)) = connections p
  /\ clock (fst (ws_onmessage body p)) = clock p
  /\ (teamGridEl (fst (ws_onmessage body p)) = teamGridEl p
      \/ exists pokemon,
           teamGridEl (fst (ws_onmessage body p))
           = fst (rendered pokemon 0 6)).
Proof.
  rewrite ws_onmessage_run.
  destruct (JSON_parse body) as [data|]; [| repeat split; now left].
  destruct (Get data K_pokemon) as [pokemon|e]; [| repeat split; now left].
  destruct (snd (rendered pokemon 0 6)); repeat split; right;
    now exists pokemon.
Qed.

(** The sprite container an image event leaves behind. *)
Lemma image_result_cases (loaded : bool) (container container' : SpriteContainer)
    (result : completion unit) :
  image_result loaded container = Some (container', result) ->
  exists img,
    sprite_img container = Some img
    /\ img_loading img = true
    /\ (container', result)
       = if loaded
         then (with_img (set_loading false img) container, Normal tt)
         else img_onerror_handler (set_loading false img) container.
Proof.
  unfold image_result.
  destruct (sprite_img container) as [img|]; [| discriminate].
  destruct (img_loading img) eqn:Eloading; [| discriminate].
  intros E. exists img. split; [reflexivity |]. split; [exact Eloading |].
  destruct loaded; [now injection E as <- <- |].
  injection E as E. symmetry. exact E.
Qed.

(** What the error handler does to an image and its container: it
    either starts one fetch, of a [.gif] or [.jpg] sprite, and leaves
    everything else alone, or it starts none; in the latter case, when it
    completes, the image is hidden and the container marked.  It never
    removes the image and never touches its [alt] text or its handler. *)
Lemma img_onerror_handler_cases
    (this : HTMLImageElement) (container container' : SpriteContainer)
    (result : completion unit) :
  img_onerror_handler this container = (container', result) ->
  exists img',
    sprite_img container' = Some img'
    /\ img_alt img' = img_alt this
    /\ img_onerror img' = img_onerror this
    /\ ((img_requested img' = (img_requested this ++ [img_src img'])%list
         /\ (endsWith (img_src img') ".gif" = true
             \/ endsWith (img_src img') ".jpg" = true)
         /\ img_loading img' = true
         /\ img_display img' = img_display this
         /\ sprite_className container' = sprite_className container
         /\ result = Normal tt)
        \/ (img_requested img' = img_requested this
            /\ img_src img' = img_src this
            /\ img_loading img' = img_loading this
            /\ (result = Normal tt ->
                img_display img' = "none"
                /\ sprite_className container'
                   = classList_add "empty" (sprite_className container)))).
Proof.
  unfold img_onerror_handler.
  destruct (endsWith (src_property this) ".png").
  - destruct (ToString (img_onerror this)) as [name|e]; intros [= <- <-];
      eexists; (split; [reflexivity |]); (split; [reflexivity |]);
      (split; [reflexivity |]).
    + left. cbn [img_requested img_src img_loading img_display set_src
                 with_img sprite_className].
      repeat split. left. unfold sprite_url. rewrite <- append_assoc.
      apply endsWith_append.
    + right. repeat split; discriminate.
  - destruct (endsWith (src_property this) ".gif").
    + destruct (ToString (img_onerror this)) as [name|e]; intros [= <- <-];
        eexists; (split; [reflexivity |]); (split; [reflexivity |]);
        (split; [reflexivity |]).
      * left. cbn [img_requested img_src img_loading img_display set_src
                   with_img sprite_className].
        repeat split. right. unfold sprite_url. rewrite <- append_assoc.
        apply endsWith_append.
      * right. repeat split; discriminate.
    + intros [= <- <-].
      eexists. split; [reflexivity |]. split; [reflexivity |].
      split; [reflexivity |]. right. repeat split.
Qed.

(** X13.  An image event reaches only a slot whose image has a fetch
    outstanding (never an empty slot, never a settled image), and touches
    nothing but the sprite container of that slot.  The image stays in its
    slot with its [alt] text and its handler.  A sprite that loaded starts
    no fetch, hides nothing and marks nothing.  A sprite that failed either
    starts exactly one new fetch, of a [.gif] or [.jpg] sprite, leaving the
    image visible as it was and the container unmarked, or starts none,
    and then the image is hidden and the container given the [empty]
    class. *)
Theorem image_event_touches_one_slot
    (slot : nat) (loaded : bool) (p p' : page) (result : completion unit) :
  dispatch (image_event slot loaded) p = Some (p', result) ->
  ws p' = ws p
  /\ timers p' = timers p
  /\ connections p' = connections p
  /\ console p' = console p
  /\ clock p' = clock p
  /\ length (teamGridEl p') = length (teamGridEl p)
  /\ (forall j, j <> slot ->
                nth_error (teamGridEl p') j = nth_error (teamGridEl p) j)
  /\ exists card card' img img',
       nth_error (teamGridEl p) slot = Some card
       /\ nth_error (teamGridEl p') slot = Some card'
       /\ sprite_img (card_spriteContainer card) = Some img
       /\ img_loading img = true
       /\ card_className card' = card_className card
       /\ card_animationDelay card' = card_animationDelay card
       /\ card_nameEl card' = card_nameEl card
       /\ sprite_img (card_spriteContainer card') = Some img'
       /\ img_alt img' = img_alt img
       /\ img_onerror img' = img_onerror img
       /\ (loaded = true ->
           img' = set_loading false img
           /\ sprite_className (card_spriteContainer card')
              = sprite_className (card_spriteContainer card)
           /\ result = Normal tt)
       /\ (loaded = false ->
           (img_requested img' = (img_requested img ++ [img_src img'])%list
            /\ (endsWith (img_src img') ".gif" = true
                \/ endsWith (img_src img') ".jpg" = true)
            /\ img_loading img' = true
            /\ img_display img' = img_display img
            /\ sprite_className (card_spriteContainer card')
               = sprite_className (card_spriteContainer card)
            /\ result = Normal tt)
           \/ (img_requested img' = img_requested img
               /\ img_src img' = img_src img
               /\ img_loading img' = false
               /\ (result = Normal tt ->
                   img_display img' = "none"
                   /\ sprite_className (card_spriteContainer card')
                      = classList_add "empty"
                          (sprite_className (card_spriteContainer card))))).
Proof.
  cbn [dispatch].
  destruct (nth_error (teamGridEl p) slot) as [card|] eqn:Ecard;
    [| discriminate].
  destruct (image_result loaded (card_spriteContainer card))
    as [[container result']|] eqn:Eresult; [| discriminate].
  intros [= <- <-].
  cbn [ws timers connections console clock teamGridEl with_teamGridEl].
  destruct (image_result_cases _ _ _ _ Eresult)
    as (img & Himg & Hloading & Hcases).
  split; [reflexivity |]. split; [reflexivity |]. split; [reflexivity |].
  split; [reflexivity |]. split; [reflexivity |].
  split; [apply replace_nth_length |].
  split; [intros j Hj; now apply replace_nth_other |].
  assert (Hcard' : nth_error
                     (replace_nth slot (with_spriteContainer container card)
                        (teamGridEl p)) slot
                   = Some (with_spriteContainer container card))
    by now apply (replace_nth_same slot _ card).
  destruct loaded.
  - injection Hcases as -> ->.
    exists card, (with_spriteContainer
                    (with_img (set_loading false img)
                       (card_spriteContainer card)) card),
      img, (set_loading false img).
    repeat split; try assumption; discriminate.
  - symmetry in Hcases.
    destruct (img_onerror_handler_cases _ _ _ _ Hcases)
      as (img' & Himg' & Halt & Hhandler & Hsteps).
    cbn [img_requested img_src img_loading img_display img_alt img_onerror
         set_loading] in Halt, Hhandler, Hsteps.
    exists card, (with_spriteContainer container card), img, img'.
    cbn [card_className card_animationDelay card_nameEl card_spriteContainer
         with_spriteContainer].
    split; [reflexivity |]. split; [exact Hcard' |]. split; [exact Himg |].
    split; [exact Hloading |]. split; [reflexivity |].
    split; [reflexivity |]. split; [reflexivity |]. split; [exact Himg' |].
    split; [exact Halt |]. split; [exact Hhandler |].
    split; [discriminate |]. intros _. exact Hsteps.
Qed.

(** X14.  Who does what: only a close event adds a timer and only a
    firing timer removes one; only a firing timer opens a connection; only
    a message or an image event changes the grid; only the passing of time
    moves the clock.  In particular an error event recovers nothing by
    itself, and no handler ever closes or replaces the socket on its own. *)
Theorem event_effects
    (e : event) (p p' : page) (result : completion unit) :
  dispatch e p = Some (p', result) ->
  (if is_close e then length (timers p') = S (length (timers p))
   else if is_timeout e then S (length (timers p')) = length (timers p)
   else timers p' = timers p)
  /\ (if is_timeout e
      then connections p' = (connections p ++ [ws_endpoint])%list
      else connections p' = connections p)
  /\ (if is_message e || is_image e then True
      else teamGridEl p' = teamGridEl p)
  /\ match e with
     | elapse ms => clock p' = (clock p + ms)%N
     | _ => clock p' = clock p
     end.
Proof.
  destruct e as [|body| |code wasClean|k|ms|slot loaded]; cbn [dispatch];
    cbn [is_close is_timeout is_message is_image orb].
  - destruct (ws p) as [socket|]; [| discriminate].
    destruct (ws_readyState socket); try discriminate.
    intros [= <- <-]. repeat split.
  - destruct (ws p) as [socket|]; [| discriminate].
    destruct (ws_readyState socket); try discriminate.
    destruct (ws_onmessage_frame body p)
      as (Hresult & Hws & Htimers & Hconns & Hclock & _).
    destruct (ws_onmessage body p) as [q r]. cbn [fst snd] in *.
    intros [= <- <-]. repeat split; assumption.
  - destruct (ws p) as [socket|]; [| discriminate].
    destruct (ws_readyState socket); try discriminate;
      intros [= <- <-]; repeat split.
  - destruct (ws p) as [socket|]; [| discriminate].
    destruct (ws_readyState socket); try discriminate;
      rewrite ws_onclose_run; intros [= <- <-];
      cbn [timers connections teamGridEl clock with_ws];
      repeat split; rewrite length_app; cbn [length]; lia.
  - destruct (nth_error (timers p) k) as [t|] eqn:Et; [| discriminate].
    destruct (timer_due t <=? clock p)%N; [| discriminate].
    destruct (timer_callback t). cbn [run_callback]. rewrite connect_run.
    intros [= <- <-].
    cbn [timers connections teamGridEl clock with_timers].
    repeat split. now apply (remove_nth_length k t).
  - intros [= <- <-]. repeat split.
  - destruct (nth_error (teamGridEl p) slot) as [card|]; [| discriminate].
    destruct (image_result loaded (card_spriteContainer card))
      as [[container result']|]; [| discriminate].
    intros [= <- <-]. repeat split.
Qed.

End EventLoopMore.

(** * What holds in every run *)

Section Runs.
Context {numbers : Numbers} {host : Host}.

Lemma run_invariant (I : page -> Prop) :
  (forall e p p' result,
      I p -> dispatch e p = Some (p', result) -> I p') ->
  forall events p q, I p -> run events p = Some q -> I q.
Proof.
  intros Hstep events. induction events as [|e events IH]; intros p q Hp.
  - now intros [= <-].
  - cbn [run]. destruct (dispatch e p) as [[p' result]|] eqn:E;
      [| discriminate].
    apply IH. now apply (Hstep e p p' result).
Qed.

Lemma one_connection_initial : one_connection initial_page.
Proof.
  exists {| ws_url := ws_endpoint; ws_readyState := CONNECTING |}.
  repeat split; try discriminate.
  - right. split; [discriminate | reflexivity].
  - now repeat constructor.
Qed.

Lemma one_connection_step (e : event) (p p' : page)
    (result : completion unit) :
  one_connection p -> dispatch e p = Some (p', result) -> one_connection p'.
Proof.
  intros (socket & Hws & Hurl & Hstate & Hne & Hall).
  destruct e as [|body| |code wasClean|k|ms|slot loaded]; cbn [dispatch].
  - rewrite Hws. destruct (ws_readyState socket) eqn:Es; try discriminate.
    intros [= <- <-]. exists (set_readyState OPEN socket).
    repeat split; try assumption. right. split; [discriminate |].
    destruct Hstate as [[Hclosed _]|[_ Hnone]]; [congruence | exact Hnone].
  - rewrite Hws. destruct (ws_readyState socket) eqn:Es; try discriminate.
    destruct (ws_onmessage_frame body p)
      as (_ & Hws' & Htimers & Hconns & _ & _).
    destruct (ws_onmessage body p) as [q r]. cbn [fst] in *.
    intros [= <- <-]. exists socket. rewrite Hws', Htimers, Hconns.
    repeat split; try assumption. now rewrite Es.
  - rewrite Hws. destruct (ws_readyState socket) eqn:Es; try discriminate;
      intros [= <- <-]; exists socket;
      (repeat split; try assumption; now rewrite Es).
  - rewrite Hws.
    assert (Hnone : ws_readyState socket <> CLOSED -> timers p = []).
    { intros Hopen. now destruct Hstate as [[Hclosed _]|[_ Hnone]]. }
    destruct (ws_readyState socket) eqn:Es; try discriminate;
      rewrite ws_onclose_run; intros [= <- <-];
      exists (set_readyState CLOSED socket);
      cbn [ws timers connections with_ws];
      (repeat split; try assumption; left; split; [reflexivity |];
       rewrite Hnone by discriminate; now eexists).
  - destruct (nth_error (timers p) k) as [t|] eqn:Et; [| discriminate].
    destruct (timer_due t <=? clock p)%N; [| discriminate].
    destruct (timer_callback t). cbn [run_callback]. rewrite connect_run.
    intros [= <- <-].
    exists {| ws_url := ws_endpoint; ws_readyState := CONNECTING |}.
    cbn [ws timers connections with_timers].
    destruct Hstate as [[_ [t' Hone]]|[_ Hnone]].
    + rewrite Hone in *. destruct k as [|[|k]]; try discriminate.
      repeat split.
      * right. split; [discriminate | reflexivity].
      * now destruct (connections p).
      * apply Forall_app. split; [assumption | now repeat constructor].
    + rewrite Hnone in Et. now destruct k.
  - intros [= <- <-]. exists socket. now repeat split.
  - destruct (nth_error (teamGridEl p) slot) as [card|]; [| discriminate].
    destruct (image_result loaded (card_spriteContainer card))
      as [[container result']|]; [| discriminate].
    intros [= <- <-]. exists socket. now repeat split.
Qed.

Lemma dispatch_counts (e : event) (p p' : page) (result : completion unit) :
  dispatch e p = Some (p', result) ->
  length (connections p') + length (timers p')
  = length (connections p) + length (timers p)
    + (if is_close e then 1 else 0).
Proof.
  destruct e as [|body| |code wasClean|k|ms|slot loaded]; cbn [dispatch is_close].
  - destruct (ws p) as [socket|]; [| discriminate].
    destruct (ws_readyState socket); try discriminate.
    intros [= <- <-]. cbn. lia.
  - destruct (ws p) as [socket|]; [| discriminate].
    destruct (ws_readyState socket); try discriminate.
    destruct (ws_onmessage_frame body p)
      as (_ & _ & Htimers & Hconns & _ & _).
    destruct (ws_onmessage body p) as [q r]. cbn [fst] in *.
    intros [= <- <-]. rewrite Htimers, Hconns. lia.
  - destruct (ws p) as [socket|]; [| discriminate].
    destruct (ws_readyState socket); try discriminate;
      intros [= <- <-]; cbn; lia.
  - destruct (ws p) as [socket|]; [| discriminate].
    destruct (ws_readyState socket); try discriminate;
      rewrite ws_onclose_run; intros [= <- <-];
      cbn [timers connections with_ws]; rewrite length_app; cbn [length]; lia.
  - destruct (nth_error (timers p) k) as [t|] eqn:Et; [| discriminate].
    destruct (timer_due t <=? clock p)%N; [| discriminate].
    destruct (timer_callback t). cbn [run_callback]. rewrite connect_run.
    intros [= <- <-]. cbn [timers connections with_timers].
    rewrite length_app. cbn [length].
    pose proof (remove_nth_length k t (timers p) Et). lia.
  - intros [= <- <-]. cbn. lia.
  - destruct (nth_error (teamGridEl p) slot) as [card|]; [| discriminate].
    destruct (image_result loaded (card_spriteContainer card))
      as [[container result']|]; [| discriminate].
    intros [= <- <-]. cbn. lia.
Qed.

Lemma run_counts (events : list event) (p q : page) :
  run events p = Some q ->
  length (connections q) + length (timers q)
  = length (connections p) + length (timers p) + count_close events.
Proof.
  revert p. induction events as [|e events IH]; intros p.
  - intros [= <-]. cbn. lia.
  - cbn [run]. destruct (dispatch e p) as [[p' result]|] eqn:E;
      [| discriminate].
    intros Hrun. rewrite (IH p' Hrun), (dispatch_counts e p p' result E).
    unfold count_close. cbn [filter]. destruct (is_close e); cbn [length]; lia.
Qed.

(** X15.  One connection at a time, in every run from the initial page:
    the global [ws] always holds a socket to the endpoint; a reconnect
    timer is pending exactly while that socket is closed and there is
    never a second one; so [connect] is never called while a socket is
    still connecting or open, and every connection goes to the endpoint. *)
Theorem one_connection_at_a_time (events : list event) (q : page) :
  run events initial_page = Some q ->
  one_connection q /\ length (timers q) <= 1.
Proof.
  intros Hrun.
  assert (Hone : one_connection q).
  { apply (run_invariant one_connection one_connection_step
             events initial_page q one_connection_initial Hrun). }
  split; [exact Hone |].
  destruct Hone as (socket & _ & _ & [[_ [t ->]]|[_ ->]] & _); cbn; lia.
Qed.

(** X16.  Reconnects match closes over whole runs: after any run from the
    initial page, the connections made plus the reconnects still pending
    are one more than the close events delivered.  No close goes without
    its reconnect and no reconnect happens without a close. *)
Theorem reconnects_match_closes (events : list event) (q : page) :
  run events initial_page = Some q ->
  length (connections q) + length (timers q) = 1 + count_close events.
Proof.
  intros Hrun. rewrite (run_counts events initial_page q Hrun).
  reflexivity.
Qed.

End Runs.

(** * The grid in every run *)

Section GridRuns.
Context {numbers : Numbers} {host : Host}.

Lemma make_card_on_chain (pokemon : value) (i : nat) (card : Card) :
  make_card pokemon i = Normal card -> card_on_chain card.
Proof.
  intros Hmake.
  destruct (make_card_cases pokemon i card Hmake)
    as (v & w & _ & _ & [[_ ->]|(name & label & _ & Hname & _ & ->)]).
  - exact I.
  - exists name. cbn. repeat split; [assumption | now left | discriminate
                                    | discriminate].
Qed.

Lemma rendered_Forall (P : Card -> Prop) (pokemon : value) (count i : nat) :
  (forall j card, make_card pokemon j = Normal card -> P card) ->
  Forall P (fst (rendered pokemon i count)).
Proof.
  intros HP. revert i. induction count as [|count IH]; intros i;
    cbn [rendered]; [constructor |].
  destruct (make_card pokemon i) as [card|e] eqn:E; [| constructor].
  specialize (IH (S i)).
  destruct (rendered pokemon (S i) count) as [cards ending].
  constructor; [now apply (HP i) | exact IH].
Qed.

Lemma rendered_length (pokemon : value) (count i : nat) :
  length (fst (rendered pokemon i count)) <= count.
Proof.
  destruct (rendered_cases pokemon count i)
    as [[_ Hlen]|(k & e & Hk & _ & _ & Hlen)]; lia.
Qed.

(** An image event keeps an image on its chain, and its handler
    completes. *)
Lemma image_result_on_chain (loaded : bool) (container container' : SpriteContainer)
    (img : HTMLImageElement) (result : completion unit) :
  sprite_img container = Some img ->
  img_on_chain img ->
  image_result loaded container = Some (container', result) ->
  result = Normal tt
  /\ exists img', sprite_img container' = Some img' /\ img_on_chain img'.
Proof.
  intros Himg (name & Hname & Hchain & Hhidden) Hresult.
  destruct (image_result_cases _ _ _ _ Hresult)
    as (img0 & Himg0 & Hloading & Hcases).
  rewrite Himg in Himg0. injection Himg0 as <-.
  assert (Hvisible : img_display img <> "none").
  { intros Hnone. destruct (Hhidden Hnone) as [_ Hsettled]. congruence. }
  destruct loaded.
  - injection Hcases as -> ->. split; [reflexivity |].
    eexists. split; [reflexivity |]. exists name.
    split; [exact Hname |]. split; [exact Hchain |].
    intros Hnone. contradiction.
  - destruct Hchain as [[Hsrc Hreq]|[[Hsrc Hreq]|[Hsrc Hreq]]].
    + rewrite (onerror_after_png name) in Hcases by assumption.
      injection Hcases as -> ->. split; [reflexivity |].
      eexists. split; [reflexivity |]. exists name.
      split; [exact Hname |]. split; [| intros Hnone; contradiction].
      right. left. cbn [img_src img_requested set_src set_loading].
      split; [reflexivity | now rewrite Hreq].
    + rewrite (onerror_after_gif name) in Hcases by assumption.
      injection Hcases as -> ->. split; [reflexivity |].
      eexists. split; [reflexivity |]. exists name.
      split; [exact Hname |]. split; [| intros Hnone; contradiction].
      right. right. cbn [img_src img_requested set_src set_loading].
      split; [reflexivity | now rewrite Hreq].
    + rewrite (onerror_after_jpg name) in Hcases by assumption.
      injection Hcases as -> ->. split; [reflexivity |].
      eexists. split; [reflexivity |]. exists name.
      split; [exact Hname |]. split; [| intros _; now split].
      right. right. now split.
Qed.

Lemma sound_grid_step (e : event) (p p' : page) (result : completion unit) :
  sound_grid p -> dispatch e p = Some (p', result) ->
  sound_grid p' /\ result = Normal tt.
Proof.
  intros [Hlen Hall].
  destruct e as [|body| |code wasClean|k|ms|slot loaded]; cbn [dispatch].
  - destruct (ws p) as [socket|]; [| discriminate].
    destruct (ws_readyState socket); try discriminate.
    intros [= <- <-]. now repeat split.
  - destruct (ws p) as [socket|]; [| discriminate].
    destruct (ws_readyState socket); try discriminate.
    destruct (ws_onmessage_frame body p)
      as (Hresult & _ & _ & _ & _ & Hgrid).
    destruct (ws_onmessage body p) as [q r]. cbn [fst snd] in *.
    intros [= <- <-]. split; [| assumption]. unfold sound_grid.
    destruct Hgrid as [-> | [pokemon ->]]; [now split |].
    split; [apply rendered_length |].
    apply rendered_Forall. intros j card. apply make_card_on_chain.
  - destruct (ws p) as [socket|]; [| discriminate].
    destruct (ws_readyState socket); try discriminate;
      intros [= <- <-]; now repeat split.
  - destruct (ws p) as [socket|]; [| discriminate].
    destruct (ws_readyState socket); try discriminate;
      rewrite ws_onclose_run; intros [= <- <-]; now repeat split.
  - destruct (nth_error (timers p) k) as [t|]; [| discriminate].
    destruct (timer_due t <=? clock p)%N; [| discriminate].
    destruct (timer_callback t). cbn [run_callback]. rewrite connect_run.
    intros [= <- <-]. now repeat split.
  - intros [= <- <-]. now repeat split.
  - destruct (nth_error (teamGridEl p) slot) as [card|] eqn:Ecard;
      [| discriminate].
    destruct (image_result loaded (card_spriteContainer card))
      as [[container result']|] eqn:Eresult; [| discriminate].
    intros [= <- <-].
    destruct (image_result_cases _ _ _ _ Eresult) as (img & Himg & _ & _).
    assert (Hcard : card_on_chain card).
    { apply nth_error_In in Ecard.
      now apply (proj1 (Forall_forall _ _) Hall). }
    unfold card_on_chain in Hcard. rewrite Himg in Hcard.
    destruct (image_result_on_chain _ _ _ _ _ Himg Hcard Eresult)
      as (-> & img' & Himg' & Hchain').
    split; [| reflexivity]. split; cbn [teamGridEl with_teamGridEl].
    + now rewrite replace_nth_length.
    + apply replace_nth_Forall; [| assumption].
      unfold card_on_chain. cbn [card_spriteContainer with_spriteContainer].
      now rewrite Himg'.
Qed.

Lemma sound_grid_run (events : list event) (q : page) :
  run events initial_page = Some q -> sound_grid q.
Proof.
  apply (run_invariant sound_grid).
  - intros e p p' result Hp Hstep.
    now destruct (sound_grid_step e p p' result Hp Hstep).
  - split; [cbn; lia | constructor].
Qed.

(** X17.  In every run from the initial page the grid never holds more
    than six cards, and every image in it stands on the fallback chain of
    its own name: it has asked for the [.png], [.gif], [.jpg] sprites in
    this order up to the one it now shows, never more than three times and
    never twice for the same URL; and a hidden image has walked the whole
    chain and has nothing outstanding. *)
Theorem images_stay_on_their_chain (events : list event) (q : page) :
  run events initial_page = Some q ->
  length (teamGridEl q) <= 6
  /\ forall card img,
       In card (teamGridEl q) ->
       sprite_img (card_spriteContainer card) = Some img ->
       exists name k,
         1 <= k <= 3
         /\ img_requested img = firstn k (fallback_urls name)
         /\ img_src img = last (img_requested img) ""
         /\ NoDup (img_requested img)
         /\ (img_display img = "none" -> k = 3 /\ img_loading img = false).
Proof.
  intros Hrun. destruct (sound_grid_run events q Hrun) as [Hlen Hall].
  split; [exact Hlen |]. intros card img Hin Himg.
  pose proof (proj1 (Forall_forall _ _) Hall card Hin) as Hcard.
  unfold card_on_chain in Hcard. rewrite Himg in Hcard.
  destruct Hcard as (name & _ & Hchain & Hhidden).
  assert (Hdistinct : NoDup (fallback_urls name)).
  { repeat constructor; cbn [In]; intros Hin';
      repeat destruct Hin' as [Hin'|Hin']; try contradiction;
      revert Hin'; try apply sprite_url_inj_extension; try reflexivity;
      intros Hin'; symmetry in Hin'; revert Hin';
      apply sprite_url_inj_extension; reflexivity. }
  assert (Hprefix : forall k, NoDup (firstn k (fallback_urls name))).
  { intros k. rewrite <- (firstn_skipn k (fallback_urls name)) in Hdistinct.
    now apply NoDup_app_remove_r in Hdistinct. }
  exists name.
  destruct Hchain as [[Hsrc Hreq]|[[Hsrc Hreq]|[Hsrc Hreq]]].
  - exists 1. rewrite Hreq.
    split; [lia |]. split; [reflexivity |]. split; [exact Hsrc |].
    split; [apply Hprefix |].
    intros Hnone. destruct (Hhidden Hnone) as [Hjpg _].
    rewrite Hsrc in Hjpg. now apply sprite_url_inj_extension in Hjpg.
  - exists 2. rewrite Hreq.
    split; [lia |]. split; [reflexivity |]. split; [exact Hsrc |].
    split; [apply Hprefix |].
    intros Hnone. destruct (Hhidden Hnone) as [Hjpg _].
    rewrite Hsrc in Hjpg. now apply sprite_url_inj_extension in Hjpg.
  - exists 3. rewrite Hreq.
    split; [lia |]. split; [reflexivity |]. split; [exact Hsrc |].
    split; [apply Hprefix |].
    intros Hnone. split; [reflexivity | now apply Hhidden].
Qed.

(** X18.  No uncaught error in any run: in every page reached from the
    initial page, whatever event the platform delivers next, the handler
    the script installed for it completes normally. *)
Theorem no_handler_throws_in_any_run
    (events : list event) (q q' : page) (e : event)
    (result : completion unit) :
  run events initial_page = Some q ->
  dispatch e q = Some (q', result) ->
  result = Normal tt.
Proof.
  intros Hrun Hstep.
  now destruct (sound_grid_step e q q' result (sound_grid_run events q Hrun)
                  Hstep).
Qed.

End GridRuns.

(** ** The further properties on the second host *)

Section ExamplesMore.
#[local] Existing Instance Demo.integers.
#[local] Existing Instance Arena.host.

Lemma updateTeam_six_iff_complete_short :
  length (teamGridEl (fst (updateTeam Demo.short_roster blank_page))) <= 6
  /\ (snd (updateTeam Demo.short_roster blank_page) = Normal tt
      <-> length (teamGridEl (fst (updateTeam Demo.short_roster blank_page)))
          = 6)
  /\ (snd (updateTeam Demo.short_roster blank_page) = Normal tt
      \/ snd (updateTeam Demo.short_roster blank_page) = Throw TypeError).
Proof.
  apply (updateTeam_six_iff_complete Demo.short_roster blank_page).
  reflexivity.
Defined.

Lemma updateTeam_reads_six_indices_array_like :
  updateTeam Arena.array_like blank_page = updateTeam Demo.roster blank_page.
Proof.
  apply (updateTeam_reads_six_indices Arena.array_like Demo.roster).
  intros [|[|[|[|[|[|i]]]]]] Hi; try reflexivity. lia.
Defined.

(** A roster that is a string: every character is an entry without a
    name. *)
Lemma falsy_name_renders_placeholder_string :
  make_card (VString "abcdef") 3 = Normal (slot_card 3 (VObject [])).
Proof.
  apply (falsy_name_renders_placeholder (VString "abcdef") (VString "d")
           VUndefined 3);
    reflexivity.
Defined.

Lemma truthy_fields_are_printed_numbered :
  exists card,
    make_card Arena.numbered 0 = Normal card
    /\ name_textContent (card_nameEl card) = "Pika,chu"
    /\ sprite_img (card_spriteContainer card)
       = Some {| img_src := "/sprites/25.png";
                 img_alt := "25";
                 img_display := "";
                 img_onerror := @VNumber Demo.integers 25%Z;
                 img_requested := ["/sprites/25.png"];
                 img_loading := true |}.
Proof.
  apply (proj1 (truthy_fields_are_printed Arena.numbered
                  (VObject [("name", @VNumber Demo.integers 25%Z);
                            ("nickname",
                             VArray [VString "Pika"; VString "chu"])])
                  (@VNumber Demo.integers 25%Z)
                  (VArray [VString "Pika"; VString "chu"]) "25" 0
                  eq_refl eq_refl eq_refl eq_refl eq_refl) "Pika,chu").
  reflexivity.
Defined.

Lemma unprintable_name_throws_nameless :
  make_card Arena.nameless 0 = Throw TypeError
  /\ exists p',
       updateTeam Arena.nameless blank_page = (p', Throw TypeError)
       /\ length (teamGridEl p') <= 0.
Proof.
  apply (unprintable_name_throws Arena.nameless
           (VObject [("name", VObject [("toString", VNull)])])
           (VObject [("toString", VNull)]) TypeError 0 blank_page);
    first [reflexivity | lia].
Defined.

Lemma card_marks_agree_pikachu :
  card_animationDelay (slot_card 0 (Demo.entry "pikachu" "Sparky"))
  = animationDelay 0
  /\ ((sprite_img
         (card_spriteContainer (slot_card 0 (Demo.entry "pikachu" "Sparky")))
       = None
       /\ classList_contains
            (card_className (slot_card 0 (Demo.entry "pikachu" "Sparky")))
            "empty" = true
       /\ classList_contains
            (sprite_className
               (card_spriteContainer
                  (slot_card 0 (Demo.entry "pikachu" "Sparky")))) "empty"
          = true
       /\ classList_contains
            (name_className
               (card_nameEl (slot_card 0 (Demo.entry "pikachu" "Sparky"))))
            "empty" = true
       /\ name_textContent
            (card_nameEl (slot_card 0 (Demo.entry "pikachu" "Sparky")))
          = "Empty Slot")
      \/ (exists img,
             sprite_img
               (card_spriteContainer
                  (slot_card 0 (Demo.entry "pikachu" "Sparky"))) = Some img
             /\ img_display img = ""
             /\ img_loading img = true
             /\ endsWith (img_src img) ".png" = true
             /\ img_requested img = [img_src img]
             /\ classList_contains
                  (card_className
                     (slot_card 0 (Demo.entry "pikachu" "Sparky"))) "empty"
                = false
             /\ classList_contains
                  (sprite_className
                     (card_spriteContainer
                        (slot_card 0 (Demo.entry "pikachu" "Sparky"))))
                  "empty" = false
             /\ classList_contains
                  (name_className
                     (card_nameEl
                        (slot_card 0 (Demo.entry "pikachu" "Sparky"))))
                  "empty" = false)).
Proof.
  apply (card_marks_agree Demo.roster 0). reflexivity.
Defined.

Lemma valid_message_renders_roster_six :
  ws_onmessage Arena.six_slots_text initial_page
  = (with_teamGridEl
       (fun _ =>
          map (fun i =>
                 slot_card i
                   (nth i [VObject []; VObject []; VObject []; VObject [];
                           VObject []; VObject []] VUndefined))
            (seq 0 6)) initial_page,
     Normal tt).
Proof.
  apply (valid_message_renders_roster Arena.six_slots_text Arena.six_slots
           [VObject []; VObject []; VObject []; VObject []; VObject [];
            VObject []] initial_page);
    first [reflexivity | cbn [length]; lia].
Defined.

Lemma null_message_leaves_grid_null :
  ws_onmessage "null" initial_page
  = (with_console (console_error_exn "Error parsing message:" TypeError)
       initial_page, Normal tt)
  /\ teamGridEl (fst (ws_onmessage "null" initial_page))
     = teamGridEl initial_page.
Proof.
  apply (null_message_leaves_grid "null" VNull initial_page);
    [reflexivity | now left].
Defined.

Lemma message_without_roster_clears_grid_object :
  ws_onmessage "{}" initial_page
  = (with_console (console_error_exn "Error parsing message:" TypeError)
       (with_teamGridEl (fun _ => []) initial_page),
     Normal tt).
Proof.
  apply (message_without_roster_clears_grid "{}" (VObject []) VUndefined
           initial_page);
    [reflexivity | reflexivity | now left].
Defined.

(** On a server with the [.gif] sprites only: two requests, and the image
    stays visible. *)
Lemma fallback_stops_at_first_available_gif :
  exists img,
    sprite_img
      (settle Arena.gif_only 5
         (card_spriteContainer (slot_card 0 (Demo.entry "pikachu" "Sparky"))))
    = Some img
    /\ img_requested img = chain_requests Arena.gif_only "pikachu"
    /\ img_src img = last (chain_requests Arena.gif_only "pikachu") ""
    /\ img_loading img = false
    /\ img_display img
       = (if chain_exhausted Arena.gif_only "pikachu" then "none" else "")
    /\ classList_contains
         (sprite_className
            (settle Arena.gif_only 5
               (card_spriteContainer
                  (slot_card 0 (Demo.entry "pikachu" "Sparky")))))
         "empty" = chain_exhausted Arena.gif_only "pikachu"
    /\ length (img_requested img) <= 3.
Proof.
  apply (fallback_stops_at_first_available Demo.roster (VString "pikachu") 0
           (slot_card 0 (Demo.entry "pikachu" "Sparky")) "pikachu"
           Arena.gif_only 5);
    first [reflexivity | lia].
Defined.

(** The [.png] sprite of the pikachu card fails: the other five cards
    stay, and the image is still there, with its [alt] text, and has
    started one new fetch or none. *)
Lemma image_event_touches_one_slot_pikachu :
  length (teamGridEl Arena.png_failed) = length (teamGridEl Arena.arrived)
  /\ (forall j, j <> 0 ->
         nth_error (teamGridEl Arena.png_failed) j
         = nth_error (teamGridEl Arena.arrived) j)
  /\ exists card card' img img',
       nth_error (teamGridEl Arena.arrived) 0 = Some card
       /\ nth_error (teamGridEl Arena.png_failed) 0 = Some card'
       /\ sprite_img (card_spriteContainer card) = Some img
       /\ sprite_img (card_spriteContainer card') = Some img'
       /\ card_nameEl card' = card_nameEl card
       /\ img_alt img' = img_alt img
       /\ img_onerror img' = img_onerror img
       /\ ((img_requested img' = (img_requested img ++ [img_src img'])%list
            /\ (endsWith (img_src img') ".gif" = true
                \/ endsWith (img_src img') ".jpg" = true)
            /\ img_loading img' = true
            /\ img_display img' = img_display img
            /\ sprite_className (card_spriteContainer card')
               = sprite_className (card_spriteContainer card)
            /\ Normal tt = Normal tt)
           \/ (img_requested img' = img_requested img
               /\ img_src img' = img_src img
               /\ img_loading img' = false
               /\ (Normal tt = Normal tt ->
                   img_display img' = "none"
                   /\ sprite_className (card_spriteContainer card')
                      = classList_add "empty"
                          (sprite_className (card_spriteContainer card))))).
Proof.
  assert (Hstep : dispatch (image_event 0 false) Arena.arrived
                  = Some (Arena.png_failed, Normal tt))
    by (vm_compute; reflexivity).
  destruct (image_event_touches_one_slot 0 false _ _ _ Hstep)
    as (_ & _ & _ & _ & _ & Hlen & Hother & card & card' & img & img'
        & Hcard & Hcard' & Himg & _ & _ & _ & Hname & Himg' & Halt
        & Hhandler & _ & Hfailed).
  split; [exact Hlen |]. split; [exact Hother |].
  exists card, card', img, img'.
  split; [exact Hcard |]. split; [exact Hcard' |]. split; [exact Himg |].
  split; [exact Himg' |]. split; [exact Hname |]. split; [exact Halt |].
  split; [exact Hhandler |]. exact (Hfailed eq_refl).
Defined.

Lemma event_effects_error :
  timers (fst (ws_onerror initial_page)) = timers initial_page
  /\ connections (fst (ws_onerror initial_page)) = connections initial_page
  /\ teamGridEl (fst (ws_onerror initial_page)) = teamGridEl initial_page
  /\ clock (fst (ws_onerror initial_page)) = clock initial_page.
Proof.
  apply (event_effects error_event initial_page
           (fst (ws_onerror initial_page)) (Normal tt)).
  reflexivity.
Defined.

Lemma one_connection_at_a_time_session :
  one_connection Arena.final /\ length (timers Arena.final) <= 1.
Proof.
  apply (one_connection_at_a_time Arena.session). vm_compute. reflexivity.
Defined.

Lemma reconnects_match_closes_session :
  length (connections Arena.final) + length (timers Arena.final)
  = 1 + count_close Arena.session.
Proof.
  apply (reconnects_match_closes Arena.session). vm_compute. reflexivity.
Defined.

Lemma images_stay_on_their_chain_session :
  length (teamGridEl Arena.final) <= 6
  /\ forall card img,
       In card (teamGridEl Arena.final) ->
       sprite_img (card_spriteContainer card) = Some img ->
       exists name k,
         1 <= k <= 3
         /\ img_requested img = firstn k (fallback_urls name)
         /\ img_src img = last (img_requested img) ""
         /\ NoDup (img_requested img)
         /\ (img_display img = "none" -> k = 3 /\ img_loading img = false).
Proof.
  apply (images_stay_on_their_chain Arena.session). vm_compute. reflexivity.
Defined.

Lemma no_handler_throws_in_any_run_session :
  snd (ws_onopen
         (with_ws
            (Some {| ws_url := "wss://overlay.example/ws";
                     ws_readyState := OPEN |}) Arena.final))
  = Normal tt.
Proof.
  apply (no_handler_throws_in_any_run Arena.session Arena.final
           (fst (ws_onopen
                   (with_ws
                      (Some {| ws_url := "wss://overlay.example/ws";
                               ws_readyState := OPEN |}) Arena.final)))
           open_event);
    vm_compute; reflexivity.
Defined.

End ExamplesMore.
